(** * crypto-token: the credit-card tokenization engine (package tkengine)

    A shallow embedding of [tkengine/tkengine.go], of the provider
    fixtures of [tkengine/tkengine_test.go] and of the command that
    builds an engine from a configuration, followed by the properties of
    the token format, of the base codec, of the engine and of the command.

    Layout:
    - [Go]: the parts of the Go language and standard library the
      package relies on (bytes, strings, fixed-width integers, slices,
      UTF-8 iteration, strconv, a fragment of regexp);
    - [tkengine]: the package itself, one definition per function;
    - [tkengine_demo], [tkengine_test], [main]: the demo engine, the
      providers of the tests, the command;
    - the lemmas, grouped by the function they are about. *)

From Stdlib Require Import ZArith Lia Ascii.
From stdpp Require Import base numbers list strings gmap option.

Local Open Scope Z_scope.

(* ===================================================================== *)
(** * Part I: the Go runtime and library fragment                        *)
(* ===================================================================== *)

Module Go.

(** A Go [byte] is an 8-bit value: [ascii] is exactly that.  A Go [string]
    and a [[]byte] are both finite byte sequences; conversions between
    them copy and do not change the contents, so both are [list ascii]. *)
Abbreviation byte := ascii (only parsing).
Abbreviation bytes := (list ascii) (only parsing).
Abbreviation gostring := (list ascii) (only parsing).

(** A [rune] is an [int32] code point, an [int] a 64-bit signed integer:
    both are [Z], with wrap-around spelled out by the conversions below. *)
Abbreviation rune := Z (only parsing).

Definition byte_to_Z (c : byte) : Z := Z.of_N (N_of_ascii c).
Definition byte_of_Z (z : Z) : byte := ascii_of_N (Z.to_N (z mod 256)).

(** A string literal of the source. *)
Definition str (s : string) : gostring :=
  Stdlib.Strings.String.list_ascii_of_string s.

(** [len(s)] as a Go [int]. *)
Definition len {A} (l : list A) : Z := Z.of_nat (length l).

(** ** Fixed-width integer conversions *)

Definition to_uint32 (z : Z) : Z := z mod 2^32.
Definition to_uint64 (z : Z) : Z := z mod 2^64.
Definition to_int32 (z : Z) : Z := (z + 2^31) mod 2^32 - 2^31.

(** [math.Pow(float64(x), float64(y))] for small non-negative integers [x]
    and [y]: every intermediate product is an integer below [2^53], which
    [float64] represents exactly, so the result is the integer power.  The
    package only calls it with [x <= 32] and [y <= 7]. *)
Definition math_Pow (x y : Z) : Z := x ^ y.

(** ** Slices *)

(** [make([]byte, n)]: [n] zero bytes. *)
Definition make (n : nat) : bytes := replicate n zero.

(** [copy(dst, src)]: overwrites the first [min(len(dst), len(src))] bytes
    of [dst]; the value is the new contents of [dst]. *)
Definition copy (dst src : bytes) : bytes :=
  take (length dst) src ++ drop (length src) dst.

(** [append(s, t...)]. *)
Definition append (s t : bytes) : bytes := s ++ t.

(** [s[lo:hi]], for [0 <= lo <= hi <= len(s)] (every use in the package is
    behind a length check that guarantees it). *)
Definition slice {A} (s : list A) (lo hi : Z) : list A :=
  take (Z.to_nat (hi - lo)) (drop (Z.to_nat lo) s).

(** [s[lo:]]. *)
Definition slice_from {A} (s : list A) (lo : Z) : list A := drop (Z.to_nat lo) s.

(** [s[:hi]]. *)
Definition slice_to {A} (s : list A) (hi : Z) : list A := take (Z.to_nat hi) s.

(** [s[i]] where the index is known to be in range. *)
Definition at_index (s : bytes) (i : Z) : byte := nth (Z.to_nat i) s zero.

(** ** UTF-8 *)

Definition runeError : rune := 0xFFFD.
Definition runeSelf : Z := 0x80.
Definition maxRune : rune := 0x10FFFF.
Definition surrogateMin : rune := 0xD800.
Definition surrogateMax : rune := 0xDFFF.
Definition t2 : Z := 0xC0.
Definition t3 : Z := 0xE0.
Definition t4 : Z := 0xF0.
Definition t5 : Z := 0xF8.
Definition maskx : Z := 0x3F.
Definition mask2 : Z := 0x1F.
Definition mask3 : Z := 0x0F.
Definition mask4 : Z := 0x07.
Definition rune1Max : rune := 2^7 - 1.
Definition rune2Max : rune := 2^11 - 1.
Definition rune3Max : rune := 2^16 - 1.
Definition locb : Z := 0x80.
Definition hicb : Z := 0xBF.

(** [string(b)] for a [byte] (an integer type) is the UTF-8 encoding of the
    code point [b]: one byte below [0x80], two bytes from [0x80] to [0xFF]. *)
Definition string_of_byte (b : byte) : gostring :=
  let r := byte_to_Z b in
  if r <=? rune1Max then [b]
  else [byte_of_Z (Z.lor t2 (Z.shiftr r 6)); byte_of_Z (Z.lor 0x80 (Z.land r maskx))].

Definition is_cont (b : byte) : bool :=
  (locb <=? byte_to_Z b) && (byte_to_Z b <=? hicb).

(** The decoding step of [for _, r := range s] on a first byte at or above
    [runeSelf]: the rune and the number of bytes it takes.  An ill-formed
    sequence yields [runeError] and takes one byte. *)
Definition decoderune (s : bytes) : rune * nat :=
  match s with
  | [] => (runeError, 1%nat)
  | s0 :: rest =>
    let b0 := byte_to_Z s0 in
    if (t2 <=? b0) && (b0 <? t3) then
      match rest with
      | s1 :: _ =>
        if is_cont s1 then
          let r := Z.lor (Z.shiftl (Z.land b0 mask2) 6) (Z.land (byte_to_Z s1) maskx) in
          if rune1Max <? r then (r, 2%nat) else (runeError, 1%nat)
        else (runeError, 1%nat)
      | _ => (runeError, 1%nat)
      end
    else if (t3 <=? b0) && (b0 <? t4) then
      match rest with
      | s1 :: s2 :: _ =>
        if is_cont s1 && is_cont s2 then
          let r := Z.lor (Z.lor (Z.shiftl (Z.land b0 mask3) 12)
                                (Z.shiftl (Z.land (byte_to_Z s1) maskx) 6))
                         (Z.land (byte_to_Z s2) maskx) in
          if (rune2Max <? r) && negb ((surrogateMin <=? r) && (r <=? surrogateMax))
          then (r, 3%nat) else (runeError, 1%nat)
        else (runeError, 1%nat)
      | _ => (runeError, 1%nat)
      end
    else if (t4 <=? b0) && (b0 <? t5) then
      match rest with
      | s1 :: s2 :: s3 :: _ =>
        if is_cont s1 && is_cont s2 && is_cont s3 then
          let r := Z.lor (Z.lor (Z.lor (Z.shiftl (Z.land b0 mask4) 18)
                                       (Z.shiftl (Z.land (byte_to_Z s1) maskx) 12))
                                (Z.shiftl (Z.land (byte_to_Z s2) maskx) 6))
                         (Z.land (byte_to_Z s3) maskx) in
          if (rune3Max <? r) && (r <=? maxRune) then (r, 4%nat) else (runeError, 1%nat)
        else (runeError, 1%nat)
      | _ => (runeError, 1%nat)
      end
    else (runeError, 1%nat)
  end.

Arguments decoderune : simpl never.

(** The runes a [range] loop over a string visits, in order.  Every step
    consumes at least one byte, so [length s] steps are enough. *)
Fixpoint runes_fuel (fuel : nat) (s : bytes) : list rune :=
  match fuel with
  | O => []
  | S fuel' =>
    match s with
    | [] => []
    | b :: rest =>
      if byte_to_Z b <? runeSelf then byte_to_Z b :: runes_fuel fuel' rest
      else let '(r, w) := decoderune s in r :: runes_fuel fuel' (drop w s)
    end
  end.

Definition runes (s : bytes) : list rune := runes_fuel (length s) s.

(** [byte(r)] for a rune: the low eight bits. *)
Definition byte_of_rune (r : rune) : byte := byte_of_Z r.

(** ** Errors and results *)

(** The error values the package builds with [errors.New], one constructor
    per message, and the errors that come back from injected providers and
    from the libraries. *)
Inductive error : Type :=
| InvalidCC                          (* "Invalid CC format" *)
| InvalidTK                          (* "Invalid TK format" *)
| LengthDiffers (md out : gostring)  (* "middle digits [..] and .. [..] length differs" *)
| InvalidSize (s : Z)                (* "Invalid CC or TK size: %d" *)
| NoAlphabet (base : Z)              (* "No availlable alphabet for base %d" *)
| TkMDLen (n : Z)                    (* "tk middle digits len is not in interval [2, 8]..." *)
| CiphertextLen (n : Z)              (* "ciphertext len is not in interval [3, 9]..." *)
| UnknownSymbol (b : byte)           (* "Found char in token that does not belong to the alphabet" *)
| NoKey (v : byte)                   (* "No key exists for version %v" *)
| AlphabetRetrieval (base : Z) (e : error)  (* "Error while retriving alphabet ..." *)
| AlphabetSize (size base : Z)       (* "Got alphabet size %d for base %d..." *)
| AlphabetDuplicates (base : Z)      (* "alphabet for base %d contains duplicated elements" *)
| NumError (s : gostring)            (* strconv.NumError: syntax or range *)
| External (msg : string).           (* an error made outside the package *)

(** A call that returns [(T, error)]. *)
Inductive result (A : Type) : Type :=
| Ok (a : A)
| Err (e : error).
Arguments Ok {A} a.
Arguments Err {A} e.

(** Run-time panics of the code under study. *)
Inductive panic : Type :=
| IndexOutOfRange (i n : Z)
| DivideByZero.

(** A call that either returns [(T, error)] or panics. *)
Inductive exec (A : Type) : Type :=
| Done (r : result A)
| Panic (p : panic).
Arguments Done {A} r.
Arguments Panic {A} p.

(** [x, err := m; if err != nil { return .., err }; k] *)
Notation "'try' x '<-' m 'in' k" :=
  (match m with Ok x => k | Err e => Err e end)
  (at level 10, x name, m at level 100, k at level 200, only parsing).

(** The same inside a function that may panic. *)
Notation "'try!' x '<-' m 'in' k" :=
  (match m with Ok x => k | Err e => Done (Err e) end)
  (at level 10, x name, m at level 100, k at level 200, only parsing).

Notation "'call' x '<-' m 'in' k" :=
  (match m with Done (Ok x) => k | Done (Err e) => Done (Err e) | Panic p => Panic p end)
  (at level 10, x name, m at level 100, k at level 200, only parsing).

(** [a[i]], panicking when the index is out of range. *)
Definition index (a : bytes) (i : Z) : exec byte :=
  if (i <? 0) || (len a <=? i) then Panic (IndexOutOfRange i (len a))
  else Done (Ok (at_index a i)).

(** ** strconv *)

Definition is_digit (c : byte) : bool :=
  (48 <=? byte_to_Z c) && (byte_to_Z c <=? 57).

(** The digit loop of [strconv.ParseUint(s, 10, bitSize)]: a byte that is
    no decimal digit is a syntax error, a value above [maxVal] a range
    error; both are a [*NumError] ([None] here). *)
Fixpoint ParseUint_loop (maxVal : Z) (s : bytes) (n : Z) : option Z :=
  match s with
  | [] => Some n
  | c :: rest =>
    if is_digit c then
      let n1 := n * 10 + (byte_to_Z c - 48) in
      if n1 >? maxVal then None else ParseUint_loop maxVal rest n1
    else None
  end.

(** [strconv.ParseUint(s, 10, bitSize)]. *)
Definition strconv_ParseUint (s : gostring) (bitSize : Z) : result Z :=
  match s with
  | [] => Err (NumError s)
  | _ =>
    match ParseUint_loop (2 ^ bitSize - 1) s 0 with
    | Some n => Ok n
    | None => Err (NumError s)
    end
  end.

(** The digits of [u >= 0], most significant first, in front of [acc]. *)
Fixpoint Itoa_loop (fuel : nat) (u : Z) (acc : bytes) : bytes :=
  match fuel with
  | O => acc
  | S fuel' =>
    let acc' := byte_of_Z (48 + u mod 10) :: acc in
    if u / 10 =? 0 then acc' else Itoa_loop fuel' (u / 10) acc'
  end.

(** [strconv.Itoa(i)]: a number has at most [log2 i + 1] decimal digits. *)
Definition strconv_Itoa (i : Z) : gostring :=
  if i <? 0 then byte_of_Z 45 :: Itoa_loop (S (Z.to_nat (Z.log2 (- i)))) (- i) []
  else Itoa_loop (S (Z.to_nat (Z.log2 i))) i [].

(** ** regexp: the fragment [isValidCC] uses *)

Inductive regexp : Type :=
| BeginText                              (* ^  (no multi-line flag) *)
| EndText                                (* $  (no multi-line flag) *)
| CharClass (lo hi : rune)               (* [lo-hi] *)
| Repeat (min max : nat) (r : regexp)    (* r{min,max} *)
| Concat (r1 r2 : regexp).

(** Backtracking matcher in continuation-passing style: [bot] tells whether
    the position is the beginning of the text, [k] is what has to match
    after [r]. *)
Fixpoint re_match (r : regexp) (bot : bool) (inp : list rune)
    (k : bool → list rune → bool) : bool :=
  match r with
  | BeginText => bot && k bot inp
  | EndText => match inp with [] => k bot inp | _ => false end
  | CharClass lo hi =>
    match inp with
    | c :: rest => (lo <=? c) && (c <=? hi) && k false rest
    | [] => false
    end
  | Concat r1 r2 => re_match r1 bot inp (λ b i, re_match r2 b i k)
  | Repeat mn mx r' =>
    (fix rep (mn mx : nat) (bot : bool) (inp : list rune) {struct mx} : bool :=
       match mx with
       | O => Nat.eqb mn 0 && k bot inp
       | S mx' =>
         re_match r' bot inp (λ b i, rep (Nat.pred mn) mx' b i)
         || (Nat.eqb mn 0 && k bot inp)
       end) mn mx bot inp
  end.

(** A match may start at any position of the text. *)
Fixpoint re_search (r : regexp) (bot : bool) (inp : list rune) : bool :=
  re_match r bot inp (λ _ _, true)
  || match inp with
     | [] => false
     | _ :: rest => re_search r false rest
     end.

(** [re.Match(b)]. *)
Definition regexp_Match (re : regexp) (b : bytes) : bool :=
  re_search re true (runes b).

(** ** Imported primitives *)

(** An [ff1.Cipher]: its two methods. *)
Record Cipher : Type := {
  Encrypt : gostring → result gostring;
  Decrypt : gostring → result gostring
}.

(** What the package imports and this development does not define:
    - [hmac_sha256 key msg]: the tag [h.Sum(nil)] after
      [h := hmac.New(sha256.New, key); h.Write(msg)];
    - [ff1_NewCipher radix maxTLen key tweak]: [ff1.NewCipher];
    - [unicode_Digit r]: membership of [r] in the range table
      [unicode.Digit], consulted for runes above Latin-1 only. *)
Class Library : Type := {
  hmac_sha256 : bytes → bytes → bytes;
  ff1_NewCipher : Z → Z → bytes → bytes → result Cipher;
  unicode_Digit : rune → bool
}.

Definition MaxLatin1 : rune := 0xFF.

(** [unicode.IsDigit]. *)
Definition unicode_IsDigit `{Library} (r : rune) : bool :=
  if r <=? MaxLatin1 then (48 <=? r) && (r <=? 57)
  else unicode_Digit r.

End Go.

(* ===================================================================== *)
(** * Part II: package tkengine                                          *)
(* ===================================================================== *)

Module tkengine.
Import Go.

(** ** The provider interfaces *)

(** An interface value is the table of its methods, closed over the
    receiver.  A method returns a value or an error, and answers the same
    way every time it is asked within one operation of the engine; the
    randomised [dummyVersioner] of the demo takes its draw as a parameter
    ([tkengine_demo]). *)

(** [KeyRepo]: keys indexed by version. *)
Record KeyRepo : Type := {
  GetKey : byte → result bytes
}.

(** [KeyVersioner]: the outcome of each of its two methods. *)
Record KeyVersioner : Type := {
  GetTokenizationVersion : result byte;
  GetDetokenizationVersions : result bytes
}.

(** [AlphabetProvider]: the base is a [uint32]. *)
Record AlphabetProvider : Type := {
  GetAlphabetForBase : Z → result bytes
}.

Record engine : Type := {
  versioner : KeyVersioner;
  encryptionKeys : KeyRepo;
  hmacKeys : KeyRepo;
  alphaProvider : AlphabetProvider
}.

(** ** Concrete providers *)

(** [keyRepo]: a map from version to key. *)
Record keyRepo : Type := {
  keys : gmap ascii (list ascii)
}.

Definition keyRepo_GetKey (r : keyRepo) (v : byte) : result bytes :=
  match keys r !! v with
  | Some key => Ok key
  | None => Err (NoKey v)
  end.

Definition keyRepo_KeyRepo (r : keyRepo) : KeyRepo :=
  {| GetKey := keyRepo_GetKey r |}.

(** [DefaultAlphabetProvider.GetAlphabetForBase]. *)
Definition DefaultAlphabetProvider_GetAlphabetForBase (base : Z) : result bytes :=
  let b : gmap Z (list ascii) :=
    list_to_map
      [ (14, str "abcdefghijklmn");
        (15, str "abcdefghijklmno");
        (16, str "abcdefghijklmnop");
        (18, str "abcdefghijklmnopqr");
        (22, str "abcdefghijklmnopqrstuv");
        (32, str "abcdefghijklmnopqrstuvwxyz012345") ] in
  match b !! base with
  | Some alphabet => Ok alphabet
  | None => Err (NoAlphabet base)
  end.

Definition DefaultAlphabetProvider : AlphabetProvider :=
  {| GetAlphabetForBase := DefaultAlphabetProvider_GetAlphabetForBase |}.

(** The fixtures of [tkengine_test.go]. *)
Definition deterministicVersioner (tokError detokError : bool)
    (tokVersion : byte) (detokVersions : bytes) : KeyVersioner :=
  {| GetTokenizationVersion :=
       if tokError then Err (External "no available version") else Ok tokVersion;
     GetDetokenizationVersions :=
       if detokError then Err (External "no available versions") else Ok detokVersions |}.

Definition fixedKeyRepo (err : bool) (key : bytes) : KeyRepo :=
  {| GetKey := λ _, if err then Err (External "version does not exist") else Ok key |}.

(** ** Construction *)

Definition requiredBases : list Z := [14; 15; 16; 18; 22; 32].

(** [for _, symbol := range alpha { uniqueSymbols[symbol] = struct{}{} }] *)
Fixpoint uniqueSymbols_fill (alpha : bytes) (uniqueSymbols : gset ascii) : gset ascii :=
  match alpha with
  | [] => uniqueSymbols
  | symbol :: rest => uniqueSymbols_fill rest ({[symbol]} ∪ uniqueSymbols)
  end.

(** The loop of [validateAlphabetProvider] over the bases still to check;
    [None] is the [nil] error. *)
Fixpoint validateAlphabetProvider_loop (alphaProvider : AlphabetProvider)
    (bases : list Z) : option error :=
  match bases with
  | [] => None
  | i :: rest =>
    match GetAlphabetForBase alphaProvider i with
    | Err err => Some (AlphabetRetrieval i err)
    | Ok alpha =>
      if negb (len alpha =? i) then Some (AlphabetSize (len alpha) i)
      else
        let uniqueSymbols := uniqueSymbols_fill alpha ∅ in
        if negb (Z.of_nat (size uniqueSymbols) =? len alpha)
        then Some (AlphabetDuplicates i)
        else validateAlphabetProvider_loop alphaProvider rest
    end
  end.

Definition validateAlphabetProvider (alphaProvider : AlphabetProvider) : option error :=
  validateAlphabetProvider_loop alphaProvider requiredBases.

Definition NewEngine (versioner : KeyVersioner) (encryptionKeys hmacKeys : KeyRepo)
    (alphaProvider : AlphabetProvider) : result engine :=
  match validateAlphabetProvider alphaProvider with
  | Some err => Err err
  | None =>
    Ok {| versioner := versioner; encryptionKeys := encryptionKeys;
          hmacKeys := hmacKeys; alphaProvider := alphaProvider |}
  end.


(** ** The base codec *)

Definition encodingBaseToSaveOneChar (s : Z) : result Z :=
  if (s <? 3) || (s >? 9) then Err (InvalidSize s)
  else
    let m : gmap Z Z :=
      list_to_map [(3, 32); (4, 22); (5, 18); (6, 16); (7, 15); (8, 14); (9, 14)] in
    (* a missing key reads as the zero value *)
    Ok (default 0 (m !! to_uint32 s)).

(** [for i, el := range alpha { alphaMap[el] = i }], from index [i] on. *)
Fixpoint alphaMap_fill (i : Z) (alpha : bytes) (alphaMap : gmap ascii Z) : gmap ascii Z :=
  match alpha with
  | [] => alphaMap
  | el :: rest => alphaMap_fill (i + 1) rest (<[el := i]> alphaMap)
  end.

Definition alphaMap_of (alpha : bytes) : gmap ascii Z := alphaMap_fill 0 alpha ∅.

(** The accumulation loop of [decodeTkMD] over the bytes still to read;
    [n] is a [uint32]. *)
Fixpoint decodeTkMD_loop (alphaMap : gmap ascii Z) (base lenTkMD : Z)
    (i : Z) (tkMD : bytes) (n : Z) : result Z :=
  match tkMD with
  | [] => Ok n
  | b :: rest =>
    match alphaMap !! b with
    | None => Err (UnknownSymbol b)
    | Some m =>
      let n := to_uint32 (n + to_uint32 (to_uint32 m
                 * to_uint32 (math_Pow base (lenTkMD - 1 - i)))) in
      decodeTkMD_loop alphaMap base lenTkMD (i + 1) rest n
    end
  end.

Definition decodeTkMD (tkMD : gostring) (aphaProvider : AlphabetProvider) : result gostring :=
  if (len tkMD <? 2) || (len tkMD >? 8) then Err (TkMDLen (len tkMD))
  else
    let decodeds := len tkMD + 1 in
    try base <- encodingBaseToSaveOneChar decodeds in
    try alpha <- GetAlphabetForBase aphaProvider base in
    let alphaMap := alphaMap_of alpha in
    try n <- decodeTkMD_loop alphaMap base (len tkMD) 0 tkMD 0 in
    let str := strconv_Itoa n in
    (* for i := 0; i < decodeds-len(str); i++ { write "0" } *)
    let strb := replicate (Z.to_nat (decodeds - len str)) (byte_of_Z 48) in
    Ok (strb ++ str).

(** The loop of [encodeTkMD] over the values of [i] still to visit; [n] is
    a [uint64], [strb] what the builder holds. *)
Fixpoint encodeTkMD_loop (alpha : bytes) (base fsize : Z)
    (todo : list Z) (n : Z) (strb : gostring) : exec gostring :=
  match todo with
  | [] => Done (Ok strb)
  | i :: todo' =>
    let p := to_int32 (math_Pow base (fsize - i)) in
    if p =? 0 then Panic DivideByZero
    else
      let m := to_uint32 (Z.quot (to_int32 n) p) in
      let n := to_uint64 (Z.rem (to_int32 n) p) in
      call c <- index alpha m in
      encodeTkMD_loop alpha base fsize todo' n (strb ++ string_of_byte c)
  end.

Definition encodeTkMD (ciphertext : gostring) (alphaProvider : AlphabetProvider)
    : exec gostring :=
  if (len ciphertext <? 3) || (len ciphertext >? 9)
  then Done (Err (CiphertextLen (len ciphertext)))
  else
    try! n <- strconv_ParseUint ciphertext 32 in
    try! base <- encodingBaseToSaveOneChar (len ciphertext) in
    try! alpha <- GetAlphabetForBase alphaProvider base in
    let fsize := len ciphertext - 1 in
    (* for i := 1; i < fsize+1; i++ *)
    encodeTkMD_loop alpha base fsize (seqZ 1 fsize) n [].

(** ** Validation *)

(** The compiled pattern [^[0-9]{13,19}$]. *)
Definition ccRe : regexp :=
  Concat BeginText (Concat (Repeat 13 19 (CharClass 48 57)) EndText).

Definition isValidCC (cc : gostring) : bool := regexp_Match ccRe cc.

Definition contains (s : bytes) (v : byte) : bool :=
  existsb (λ el, bool_decide (v = el)) s.

Section WithLibrary.
Context {lib : Library}.

Definition isValidTK (tk : gostring) (alphaProvider : AlphabetProvider)
    (vers : bytes) : bool :=
  if (len tk <? 13) || (len tk >? 19) then false
  else
    let six := slice_to tk 6 in
    if negb (forallb unicode_IsDigit (runes six)) then false
    else
      let four := slice_from tk (len tk - 4) in
      if negb (forallb unicode_IsDigit (runes four)) then false
      else
        match encodingBaseToSaveOneChar (len tk - 10) with
        | Err _ => false
        | Ok base =>
          match GetAlphabetForBase alphaProvider base with
          | Err _ => false
          | Ok alpha =>
            let alphaMap := alphaMap_of alpha in
            let middle := slice tk 7 (len tk - 4) in
            if negb (forallb (λ el, bool_decide (is_Some (alphaMap !! byte_of_rune el)))
                             (runes middle))
            then false
            else if negb (contains vers (at_index tk 6)) then false
            else true
          end
        end.

(** ** The engine *)

(** The buffer both methods hand to the keyed hash (named [sixByFour] in
    each of them), as [EncryptCC] builds it from [ccBytes]. *)
Definition EncryptCC_sixByFour (ccBytes : bytes) : bytes :=
  let sixByFour := make 10 in
  let sixByFour := copy sixByFour (slice_to ccBytes 6) in
  append sixByFour (slice_from ccBytes (len ccBytes - 4)).

(** ... and as [DecryptTK] builds it from [tkBytes]. *)
Definition DecryptTK_sixByFour (tkBytes : bytes) : bytes :=
  let sixByFour := make 10 in
  let sixByFour := copy sixByFour (slice_to tkBytes 6) in
  append sixByFour (slice_from tkBytes (len tkBytes - 4)).

Definition EncryptCC (e : engine) (cc : gostring) : exec gostring :=
  if negb (isValidCC cc) then Done (Err InvalidCC)
  else
    let ccBytes := cc in
    let sixByFour := EncryptCC_sixByFour ccBytes in
    let md := slice cc 6 (len cc - 4) in
    try! v <- GetTokenizationVersion (versioner e) in
    try! ekey <- GetKey (encryptionKeys e) v in
    try! hkey <- GetKey (hmacKeys e) v in
    let tweak := hmac_sha256 hkey sixByFour in
    try! cipher <- ff1_NewCipher 10 (len tweak) ekey tweak in
    try! ciphertext <- Encrypt cipher md in
    if negb (len md =? len ciphertext) then Done (Err (LengthDiffers md ciphertext))
    else
      call tkmd <- encodeTkMD ciphertext (alphaProvider e) in
      Done (Ok (slice cc 0 6 ++ string_of_byte v ++ tkmd ++ slice_from cc (len cc - 4))).

Definition DecryptTK (e : engine) (tk : gostring) : result gostring :=
  try detokVers <- GetDetokenizationVersions (versioner e) in
  if negb (isValidTK tk (alphaProvider e) detokVers) then Err InvalidTK
  else
    let tkBytes := tk in
    let sixByFour := DecryptTK_sixByFour tkBytes in
    let v := at_index tk 6 in
    try ekey <- GetKey (encryptionKeys e) v in
    try hkey <- GetKey (hmacKeys e) v in
    let md := slice tk 6 (len tk - 4) in
    let tweak := hmac_sha256 hkey sixByFour in
    try decmd <- decodeTkMD (slice_from md 1) (alphaProvider e) in
    try cipher <- ff1_NewCipher 10 (len tweak) ekey tweak in
    try plaintext <- Decrypt cipher decmd in
    if negb (len md =? len plaintext) then Err (LengthDiffers md plaintext)
    else Ok (slice tk 0 6 ++ plaintext ++ slice_from tk (len tk - 4)).

End WithLibrary.

End tkengine.

(* ===================================================================== *)
(** * Part III: the demo engine, the test providers, the command        *)
(* ===================================================================== *)

(** ** More of the standard library *)

Module GoLib.
Import Go.

(** The text of a Go string inside an error message. *)
Definition text (s : gostring) : string :=
  Stdlib.Strings.String.string_of_list_ascii s.

(** [encoding/hex]: the value of one hexadecimal digit. *)
Definition fromHexChar (c : byte) : option Z :=
  let z := byte_to_Z c in
  if (48 <=? z) && (z <=? 57) then Some (z - 48)
  else if (97 <=? z) && (z <=? 102) then Some (z - 97 + 10)
  else if (65 <=? z) && (z <=? 70) then Some (z - 65 + 10)
  else None.

(** [hex.DecodeString(s)], pair by pair: the bytes decoded before the
    first error, and the error ([None] is [nil]).  The first byte that is
    no hexadecimal digit is an [InvalidByteError], a lone last digit an
    [ErrLength]. *)
Fixpoint hex_DecodeString (s : gostring) : bytes * option error :=
  match s with
  | [] => ([], None)
  | [p] =>
    match fromHexChar p with
    | None => ([], Some (External "encoding/hex: invalid byte"))
    | Some _ => ([], Some (External "encoding/hex: odd length hex string"))
    end
  | p :: q :: rest =>
    match fromHexChar p, fromHexChar q with
    | Some a, Some b =>
      let '(dst, err) := hex_DecodeString rest in
      (byte_of_Z (Z.lor (Z.shiftl a 4) b) :: dst, err)
    | _, _ => ([], Some (External "encoding/hex: invalid byte"))
    end
  end.

(** [fmt.Sprintf("%x", s)] for a string [s]: two lower-case hexadecimal
    digits for each byte. *)
Fixpoint fmt_Sprintf_x (s : gostring) : gostring :=
  match s with
  | [] => []
  | c :: rest =>
    let digits := str "0123456789abcdef" in
    at_index digits (Z.shiftr (byte_to_Z c) 4)
    :: at_index digits (Z.land (byte_to_Z c) 0xF)
    :: fmt_Sprintf_x rest
  end.

(** [encoding/json] on a Go string: [json_Marshal x] is what
    [json.Marshal(x)] returns, [json_Unmarshal data] what
    [json.Unmarshal(data, &x)] leaves in a string variable [x]. *)
Record JSON : Type := {
  json_Marshal : gostring → result bytes;
  json_Unmarshal : bytes → result gostring
}.

(** [strings.Split(s, sep)] for a separator of one byte: the pieces of [s]
    between the separators, [cur] being the piece under way. *)
Fixpoint strings_Split (s : gostring) (sep : byte) (cur : gostring) : list gostring :=
  match s with
  | [] => [cur]
  | c :: rest =>
    if bool_decide (c = sep) then cur :: strings_Split rest sep []
    else strings_Split rest sep (cur ++ [c])
  end.

(** The table [asciiSpace] of package [strings]: tab, line feed, vertical
    tab, form feed, carriage return, space. *)
Definition asciiSpace (c : byte) : bool :=
  bool_decide (byte_to_Z c ∈ [9; 10; 11; 12; 13; 32]).

(** One loop of [strings.TrimSpace], run from one end of the string over
    the bytes given: it skips the ASCII spaces and stops, with what is
    left ([inl]), at the first byte that is none; at a byte at or above
    [0x80] it gives up ([inr], with what is left) for the Unicode-aware
    method. *)
Fixpoint TrimSpace_scan (s : gostring) : gostring + gostring :=
  match s with
  | [] => inl []
  | c :: rest =>
    if runeSelf <=? byte_to_Z c then inr s
    else if asciiSpace c then TrimSpace_scan rest
    else inl s
  end.

(** [strings.TrimSpace(s)]; [TrimFunc_IsSpace s] is
    [strings.TrimFunc(s, unicode.IsSpace)], called on strings that hold a
    byte at or above [0x80] only. *)
Definition strings_TrimSpace (TrimFunc_IsSpace : gostring → gostring) (s : gostring)
    : gostring :=
  match TrimSpace_scan s with
  | inr rest => TrimFunc_IsSpace rest
  | inl rest =>
    (* the same from the end *)
    match TrimSpace_scan (reverse rest) with
    | inr tser => TrimFunc_IsSpace (reverse tser)
    | inl tser => reverse tser
    end
  end.

End GoLib.

(** ** The demo engine of [tkengine.go] *)

Module tkengine_demo.
Import Go GoLib tkengine.

(** [dummyVersioner]: [rand_Intn n] is what [rand.Intn(n)] answers during
    the operation, a number from [0] to [n - 1]. *)
Definition dummyVersioner_GetTokenizationVersion (rand_Intn : Z → Z) : result byte :=
  let vers := str "abcd" in
  if len vers =? 0 then Err (External "Key repo contains no key")
  else Ok (at_index vers (rand_Intn (len vers))).

Definition dummyVersioner_GetDetokenizationVersions : result bytes :=
  Ok (str "abcd").

Definition dummyVersioner (rand_Intn : Z → Z) : KeyVersioner :=
  {| GetTokenizationVersion := dummyVersioner_GetTokenizationVersion rand_Intn;
     GetDetokenizationVersions := dummyVersioner_GetDetokenizationVersions |}.

(** The loop of [NewDummyEngine] over the encryption keys still to decode;
    [i] is the index of the first of them. *)
Fixpoint NewDummyEngine_loop (todo hmacKeys : list gostring) (i : nat) (ver : byte)
    (eKeys hKeys : gmap ascii (list ascii))
    : result (gmap ascii (list ascii) * gmap ascii (list ascii)) :=
  match todo with
  | [] => Ok (eKeys, hKeys)
  | k :: rest =>
    match hex_DecodeString k with
    | (_, Some err) => Err err
    | (ekey, None) =>
      let eKeys := <[ver := ekey]> eKeys in
      (* the index is in range: both slices have the same length *)
      match hex_DecodeString (nth i hmacKeys []) with
      | (_, Some err) => Err err
      | (hkey, None) =>
        let hKeys := <[ver := hkey]> hKeys in
        NewDummyEngine_loop rest hmacKeys (S i) (byte_of_Z (byte_to_Z ver + 1)) eKeys hKeys
      end
    end
  end.

Definition NewDummyEngine (rand_Intn : Z → Z) : result engine :=
  let encryptionKeys :=
    [ str "2B7E151628AED2A6ABF7158809CF4F3C";
      str "2C7E151628AED2A6ABF7158809CF4F3B";
      str "2D7E151628AED2A6ABF7158809CF4F31";
      str "2E7E151628AED2A6ABF7158809CF4E3B" ] in
  let hmacKeys :=
    [ str "3B7E151628AED2A6ABF7158809CF4F3C";
      str "3C7E151628AED2A6ABF7158809CF4F3B";
      str "3D7E151628AED2A6ABF7158809CF4F31";
      str "3E7E151628AED2A6ABF7158809CF4E3B" ] in
  if negb (len encryptionKeys =? len hmacKeys)
  then Err (External ("Encryption Keys and Hmac keys maps should have the same size, "
                      +:+ "instead they have respectively: ["
                      +:+ text (strconv_Itoa (len encryptionKeys)) +:+ ", "
                      +:+ text (strconv_Itoa (len hmacKeys)) +:+ "]"))
  else
    try ks <- NewDummyEngine_loop encryptionKeys hmacKeys 0 "a"%char ∅ ∅ in
    Ok {| encryptionKeys := keyRepo_KeyRepo {| keys := ks.1 |};
          hmacKeys := keyRepo_KeyRepo {| keys := ks.2 |};
          versioner := dummyVersioner rand_Intn;
          alphaProvider := DefaultAlphabetProvider |}.

End tkengine_demo.

(** ** The alphabet providers of [tkengine_test.go] *)

Module tkengine_test.
Import Go tkengine.



Definition wrongSizeBase14AlphaProvider_GetAlphabetForBase (base : Z) : result bytes :=
  let b : gmap Z (list ascii) :=
    list_to_map
      [ (14, str "abcdefghijklm");
        (16, str "abcdefghijklmnop");
        (18, str "abcdefghijklmnopqr");
        (22, str "abcdefghijklmnopqrstuv");
        (32, str "abcdefghijklmnopqrstuvwxyz012345") ] in
  match b !! base with
  | Some alphabet => Ok alphabet
  | None => Err (NoAlphabet base)
  end.

Definition wrongSizeBase14AlphaProvider : AlphabetProvider :=
  {| GetAlphabetForBase := wrongSizeBase14AlphaProvider_GetAlphabetForBase |}.



End tkengine_test.

(** ** The command: engines built from a configuration *)

Module main.
Import Go GoLib tkengine.

(** [ByteString]: a byte slice that serializes to hexadecimal. *)
Definition ByteString_MarshalJSON (j : JSON) (s : bytes) : result bytes :=
  json_Marshal j (fmt_Sprintf_x s).

(** [UnmarshalJSON] has a pointer receiver: the value is the contents of
    the receiver after the call, and the error. *)
Definition ByteString_UnmarshalJSON (j : JSON) (s : bytes) (data : bytes)
    : bytes * option error :=
  match json_Unmarshal j data with
  | Err err => (s, Some err)
  | Ok x =>
    let '(str, e) := hex_DecodeString x in
    (* *s = str; err = e *)
    (str, e)
  end.

Record Versioner : Type := {
  TokenizationVersion : gostring;
  DetokenizationVersions : gostring
}.

(** The methods have pointer receivers: [None] is the [nil] pointer. *)
Definition Versioner_GetTokenizationVersion (v : option Versioner) : result byte :=
  match v with
  | None => Err (External "nil Versioner")
  | Some v =>
    if negb (len (TokenizationVersion v) =? 1)
    then Err (External ("Versioner should have a single-byte for tokenizationVersion, instead its "
                        +:+ text (TokenizationVersion v)))
    else Ok (at_index (TokenizationVersion v) 0)
  end.

(** This one reads its receiver without a check; it is called on the
    address of a field only. *)
Definition Versioner_GetDetokenizationVersions (v : Versioner) : result bytes :=
  Ok (DetokenizationVersions v).

Record Version : Type := {
  Vid : gostring;
  EncryptionKey : bytes;
  HmacKey : bytes
}.

(** [for _, ver := range *r { if string(version) == ver.Vid { return ... } }] *)
Fixpoint EncKeysRepo_GetKey_loop (r : list Version) (version : byte) : result bytes :=
  match r with
  | [] => Err (External ("Version " +:+ text (string_of_byte version) +:+ " not found in repo"))
  | ver :: rest =>
    if bool_decide (string_of_byte version = Vid ver) then Ok (EncryptionKey ver)
    else EncKeysRepo_GetKey_loop rest version
  end.

Definition EncKeysRepo_GetKey (r : option (list Version)) (version : byte) : result bytes :=
  match r with
  | None => Err (External "nil encryption key repo")
  | Some r => EncKeysRepo_GetKey_loop r version
  end.

Fixpoint HmacKeysRepo_GetKey_loop (r : list Version) (version : byte) : result bytes :=
  match r with
  | [] => Err (External ("Version " +:+ text (string_of_byte version) +:+ " not found in repo"))
  | ver :: rest =>
    if bool_decide (string_of_byte version = Vid ver) then Ok (HmacKey ver)
    else HmacKeysRepo_GetKey_loop rest version
  end.

Definition HmacKeysRepo_GetKey (r : option (list Version)) (version : byte) : result bytes :=
  match r with
  | None => Err (External "nil encryption key repo")
  | Some r => HmacKeysRepo_GetKey_loop r version
  end.

Record Config : Type := {
  Config_Versioner : Versioner;
  Versions : list Version;
  CharSets : gmap (list ascii) (list ascii)
}.

(** [alphaProvider]: a map from the decimal spelling of a base to its
    alphabet; [fmt.Sprint] of a [uint32] is that spelling. *)
Definition alphaProvider_GetAlphabetForBase (a : option (gmap (list ascii) (list ascii)))
    (base : Z) : result bytes :=
  match a with
  | None => Err (External "nil CharSets provider")
  | Some a =>
    match a !! strconv_Itoa base with
    | None => Err (External ("no available Version " +:+ text (strconv_Itoa base)))
    | Some alpha => Ok alpha
    end
  end.

(** The sanity loop of [parseConfig] over the detokenization versions. *)
Fixpoint parseConfig_loop (encRepo hmacRepo : list Version) (detokVer : bytes)
    : result unit :=
  match detokVer with
  | [] => Ok tt
  | dver :: rest =>
    try _k <- EncKeysRepo_GetKey (Some encRepo) dver in
    try _h <- HmacKeysRepo_GetKey (Some hmacRepo) dver in
    parseConfig_loop encRepo hmacRepo rest
  end.

Definition parseConfig (c : option Config)
    : result (KeyVersioner * KeyRepo * KeyRepo * AlphabetProvider) :=
  match c with
  | None => Err (External "nil Config")
  | Some c =>
    try _v <- Versioner_GetTokenizationVersion (Some (Config_Versioner c)) in
    let encRepo := Versions c in
    let hmacRepo := Versions c in
    let alphaP := CharSets c in
    try tokVer <- Versioner_GetTokenizationVersion (Some (Config_Versioner c)) in
    try _k <- EncKeysRepo_GetKey (Some encRepo) tokVer in
    try _h <- HmacKeysRepo_GetKey (Some hmacRepo) tokVer in
    try detokVer <- Versioner_GetDetokenizationVersions (Config_Versioner c) in
    try _u <- parseConfig_loop encRepo hmacRepo detokVer in
    Ok ({| GetTokenizationVersion :=
             Versioner_GetTokenizationVersion (Some (Config_Versioner c));
           GetDetokenizationVersions :=
             Versioner_GetDetokenizationVersions (Config_Versioner c) |},
        {| GetKey := EncKeysRepo_GetKey (Some encRepo) |},
        {| GetKey := HmacKeysRepo_GetKey (Some hmacRepo) |},
        {| GetAlphabetForBase := alphaProvider_GetAlphabetForBase (Some alphaP) |})
  end.

(** ** The list of cards on the command line *)

(** [CCList.Set]: the list after the call, and the error. *)
Definition CCList_Set (TrimFunc_IsSpace : gostring → gostring) (l : list gostring)
    (value : gostring) : list gostring * option error :=
  if len l >? 0 then (l, Some (External "CCList flag already set"))
  else
    (* each piece between commas is appended, trimmed *)
    (l ++ (strings_TrimSpace TrimFunc_IsSpace <$> strings_Split value ","%char []), None).

(** [buildTKEngine]: [readConfigFile] is what reading and parsing the file
    at that path gives, [rand_Intn] as in [dummyVersioner]. *)
Definition buildTKEngine (readConfigFile : gostring → result (option Config))
    (rand_Intn : Z → Z) (confFile : gostring) : result engine :=
  if bool_decide (confFile = []) then tkengine_demo.NewDummyEngine rand_Intn
  else
    try conf <- readConfigFile confFile in
    try ps <- parseConfig conf in
    let '(versioner, encKeysRepo, hmacKeysRepo, alphaProvider) := ps in
    NewEngine versioner encKeysRepo hmacKeysRepo alphaProvider.

End main.

(* ===================================================================== *)
(** * Part IV: notions the statements use                                *)
(* ===================================================================== *)

Module Notions.
Import Go tkengine.

(** ** Positional notation *)

(** The number a list of base-[b] digits denotes, most significant first. *)
Fixpoint value (b : Z) (ds : list Z) : Z :=
  match ds with
  | [] => 0
  | d :: ds' => d * b ^ len ds' + value b ds'
  end.

(** The [k] base-[b] digits of [n], most significant first. *)
Fixpoint digits (b : Z) (k : nat) (n : Z) : list Z :=
  match k with
  | O => []
  | S k' => n / b ^ Z.of_nat k' :: digits b k' (n mod b ^ Z.of_nat k')
  end.

(** The decimal digits a digit string spells. *)
Definition digit_vals (s : list ascii) : list Z := (λ c, byte_to_Z c - 48) <$> s.

(** The symbols an alphabet gives to a list of digits. *)
Definition symbols (alpha : list ascii) (ms : list Z) : list ascii := at_index alpha <$> ms.

(** What a string builder holds after writing [string(c)] for each [c]. *)
Definition utf8 (cs : list ascii) : list ascii := mjoin (string_of_byte <$> cs).

Definition is_ascii (c : ascii) : Prop := byte_to_Z c < 128.

(** ** Conditions on the providers *)

(** The alphabets a provider serves for the bases the engine uses hold
    single-byte symbols only. *)
Definition ascii_alphabets (ap : AlphabetProvider) : Prop :=
  ∀ base alpha, base ∈ requiredBases →
    GetAlphabetForBase ap base = Ok alpha → Forall is_ascii alpha.

(** ... and no symbol twice. *)
Definition distinct_alphabets (ap : AlphabetProvider) : Prop :=
  ∀ base alpha, base ∈ requiredBases →
    GetAlphabetForBase ap base = Ok alpha → NoDup alpha.

(** The contract of the format-preserving cipher: for a fixed key and
    tweak, decryption undoes encryption. *)
Definition ff1_inverse (lib : Library) : Prop :=
  ∀ radix maxTLen key tweak c x y,
    ff1_NewCipher radix maxTLen key tweak = Ok c →
    Encrypt c x = Ok y → Decrypt c y = Ok x.

(** The same library with another keyed hash. *)
Definition with_hmac (lib : Library) (h : list ascii → list ascii → list ascii) : Library :=
  {| hmac_sha256 := h;
     ff1_NewCipher := @ff1_NewCipher lib;
     unicode_Digit := @unicode_Digit lib |}.

(** A stand-in library to run the engine on: the hash is the key followed
    by the message, the cipher reverses its input and wants an AES-sized
    key, and no rune above Latin-1 counts as a digit. *)
Definition toyCipher : Cipher :=
  {| Encrypt := λ x, Ok (reverse x); Decrypt := λ y, Ok (reverse y) |}.

Definition toyLibrary : Library :=
  {| hmac_sha256 := λ key msg, key ++ msg;
     ff1_NewCipher := λ radix maxTLen key tweak,
       if bool_decide (len key ∈ [16; 24; 32]) then Ok toyCipher
       else Err (External "invalid key length");
     unicode_Digit := λ _, false |}.

(** The engine of the nominal test cases. *)
Definition testEngine : engine :=
  let zeros := replicate 16 zero in
  {| versioner := deterministicVersioner false false "a"%char (str "abcd");
     encryptionKeys := fixedKeyRepo false zeros;
     hmacKeys := fixedKeyRepo false zeros;
     alphaProvider := DefaultAlphabetProvider |}.

End Notions.

(** ** The other direction of the cipher, and a configuration *)

Module FurtherNotions.
Import Go GoLib tkengine main.

(** The other half of the contract of the format-preserving cipher: for a
    fixed key and tweak, encryption undoes decryption, and decryption keeps
    the length of its input and turns decimal digits into decimal digits. *)
Definition ff1_permutation (lib : Library) : Prop :=
  ∀ radix maxTLen key tweak c x y,
    ff1_NewCipher radix maxTLen key tweak = Ok c →
    Decrypt c y = Ok x →
    Encrypt c x = Ok y
    ∧ len x = len y
    ∧ (Forall (λ b, is_digit b = true) y → Forall (λ b, is_digit b = true) x).

(** The strings of a list, one separator byte between neighbours. *)
Fixpoint join (sep : ascii) (l : list (list ascii)) : list ascii :=
  match l with
  | [] => []
  | [x] => x
  | x :: rest => x ++ sep :: join sep rest
  end.

(** A string that is empty or starts with a byte that is no ASCII space. *)
Definition no_space_in_front (s : list ascii) : Prop :=
  match s with
  | [] => True
  | c :: _ => asciiSpace c = false
  end.

(** What the two directions of [encoding/json] owe each other on strings. *)
Definition json_inverse (j : JSON) : Prop :=
  ∀ x data, json_Marshal j x = Ok data → json_Unmarshal j data = Ok x.

(** A stand-in for it: the string between two quotation marks. *)
Definition toyJSON : JSON :=
  {| json_Marshal := λ x, Ok (byte_of_Z 34 :: x ++ [byte_of_Z 34]);
     json_Unmarshal := λ data,
       match data with
       | q :: rest => Ok (take (length rest - 1) rest)
       | [] => Err (External "unexpected end of JSON input")
       end |}.

(** The entry of a version list that answers for version [v]: the first
    one whose id is [string(v)]. *)
Definition entry_for (r : list Version) (v : ascii) (ver : Version) : Prop :=
  ∃ pre post, r = pre ++ ver :: post
    ∧ Vid ver = string_of_byte v
    ∧ Forall (λ w, Vid w ≠ string_of_byte v) pre.

(** A configuration to run the command on: it tokenizes under version
    [a] and detokenizes versions [b] and [c] only. *)
Definition sampleConfig : Config :=
  let key := replicate 16 zero in
  {| Config_Versioner :=
       {| TokenizationVersion := str "a"; DetokenizationVersions := str "bc" |};
     Versions :=
       [ {| Vid := str "a"; EncryptionKey := key; HmacKey := key |};
         {| Vid := str "b"; EncryptionKey := key; HmacKey := key |};
         {| Vid := str "c"; EncryptionKey := key; HmacKey := key |} ];
     CharSets :=
       list_to_map
         [ (str "14", str "abcdefghijklmn");
           (str "15", str "abcdefghijklmno");
           (str "16", str "abcdefghijklmnop");
           (str "18", str "abcdefghijklmnopqr");
           (str "22", str "abcdefghijklmnopqrstuv");
           (str "32", str "abcdefghijklmnopqrstuvwxyz012345") ] |}.

(** The engine [buildTKEngine] makes of it. *)
Definition sampleEngine : engine :=
  {| versioner :=
       {| GetTokenizationVersion :=
            Versioner_GetTokenizationVersion (Some (Config_Versioner sampleConfig));
          GetDetokenizationVersions :=
            Versioner_GetDetokenizationVersions (Config_Versioner sampleConfig) |};
     encryptionKeys := {| GetKey := EncKeysRepo_GetKey (Some (Versions sampleConfig)) |};
     hmacKeys := {| GetKey := HmacKeysRepo_GetKey (Some (Versions sampleConfig)) |};
     alphaProvider :=
       {| GetAlphabetForBase :=
            alphaProvider_GetAlphabetForBase (Some (CharSets sampleConfig)) |} |}.

End FurtherNotions.

(* ===================================================================== *)
(** * Part V: properties of the runtime fragment                         *)
(* ===================================================================== *)

Module GoFacts.
Import Go tkengine Notions.

(** ** Bytes, lengths and UTF-8 *)

Lemma byte_to_Z_range (c : ascii) : 0 ≤ byte_to_Z c < 256.
Proof.
  unfold byte_to_Z. pose proof (N_ascii_bounded c). lia.
Qed.

Lemma byte_of_to_Z (c : ascii) : byte_of_Z (byte_to_Z c) = c.
Proof.
  unfold byte_of_Z. pose proof (byte_to_Z_range c) as Hr.
  rewrite Z.mod_small by lia. unfold byte_to_Z.
  rewrite N2Z.id. apply ascii_N_embedding.
Qed.

Lemma byte_to_of_Z (z : Z) : 0 ≤ z < 256 → byte_to_Z (byte_of_Z z) = z.
Proof.
  intros Hz. unfold byte_to_Z, byte_of_Z. rewrite Z.mod_small by lia.
  rewrite N_ascii_embedding by lia. lia.
Qed.

Lemma byte_to_Z_inj (a b : ascii) : byte_to_Z a = byte_to_Z b → a = b.
Proof.
  intros H. rewrite <- (byte_of_to_Z a), <- (byte_of_to_Z b). by rewrite H.
Qed.

Lemma len_nonneg {A} (l : list A) : 0 ≤ len l.
Proof. unfold len. lia. Qed.

Lemma len_app {A} (l k : list A) : len (l ++ k) = len l + len k.
Proof. unfold len. rewrite length_app. lia. Qed.

Lemma string_of_byte_ascii (b : ascii) :
  byte_to_Z b < 128 → string_of_byte b = [b].
Proof.
  intros Hb. unfold string_of_byte, rune1Max.
  destruct (Z.leb_spec (byte_to_Z b) (2 ^ 7 - 1)); [done | lia].
Qed.

Lemma decoderune_above (s : list ascii) : 128 ≤ (decoderune s).1.
Proof.
  unfold decoderune, runeError, rune1Max, rune2Max, rune3Max.
  repeat case_match; simpl; try lia;
    repeat match goal with
           | H : _ && _ = true |- _ => apply andb_prop in H as [? ?]
           | H : (_ <? _) = true |- _ => apply Z.ltb_lt in H
           end; lia.
Qed.

Lemma runes_fuel_ascii (fuel : nat) (s : list ascii) :
  (length s ≤ fuel)%nat →
  Forall (λ b, byte_to_Z b < 128) s →
  runes_fuel fuel s = byte_to_Z <$> s.
Proof.
  revert s. induction fuel as [|fuel IH]; intros s Hlen Hs.
  - destruct s; [done | simpl in Hlen; lia].
  - destruct s as [|b rest]; [done|]. simpl in *.
    inversion Hs as [|? ? Hb Hrest]; subst.
    unfold runeSelf. destruct (Z.ltb_spec (byte_to_Z b) 128); [|lia].
    f_equal. apply IH; [lia | done].
Qed.

Lemma runes_ascii (s : list ascii) :
  Forall (λ b, byte_to_Z b < 128) s → runes s = byte_to_Z <$> s.
Proof. intros. by apply runes_fuel_ascii. Qed.

Lemma runes_fuel_small (fuel : nat) (s : list ascii) :
  (length s ≤ fuel)%nat →
  Forall (λ r, r < 128) (runes_fuel fuel s) →
  Forall (λ b, byte_to_Z b < 128) s.
Proof.
  revert s. induction fuel as [|fuel IH]; intros s Hlen Hs.
  - destruct s; [done | simpl in Hlen; lia].
  - destruct s as [|b rest]; [done|]. simpl in *.
    unfold runeSelf in Hs. destruct (Z.ltb_spec (byte_to_Z b) 128).
    + inversion Hs; subst. constructor; [done|]. apply IH; [lia|done].
    + pose proof (decoderune_above (b :: rest)) as Hd.
      destruct (decoderune (b :: rest)) as [r w]. simpl in Hd.
      inversion Hs; subst. lia.
Qed.

Lemma runes_small (s : list ascii) :
  Forall (λ r, r < 128) (runes s) → Forall (λ b, byte_to_Z b < 128) s.
Proof. apply runes_fuel_small. done. Qed.

Lemma Forall_impl2 {A} (P Q R : A → Prop) (l : list A) :
  Forall P l → Forall Q l → (∀ x, P x → Q x → R x) → Forall R l.
Proof.
  intros HP HQ H. induction HP as [|x l Hx _ IH]; [constructor|].
  inversion HQ; subst. constructor; [by apply H | by apply IH].
Qed.

(** ** The regexp fragment *)

Lemma re_match_Repeat_S mn mx r bot inp k :
  re_match (Repeat mn (S mx) r) bot inp k
  = re_match r bot inp (λ b i, re_match (Repeat (Nat.pred mn) mx r) b i k)
    || (Nat.eqb mn 0 && k bot inp).
Proof. reflexivity. Qed.

Lemma re_match_Repeat_O mn r bot inp k :
  re_match (Repeat mn 0 r) bot inp k = Nat.eqb mn 0 && k bot inp.
Proof. reflexivity. Qed.

Lemma re_match_CharClass_cons lo hi bot c rest k :
  re_match (CharClass lo hi) bot (c :: rest) k = (lo <=? c) && (c <=? hi) && k false rest.
Proof. reflexivity. Qed.

Lemma re_match_Repeat_class lo hi mx : ∀ mn bot inp k,
  (∀ b i, k b i = match i with [] => true | _ => false end) →
  re_match (Repeat mn mx (CharClass lo hi)) bot inp k = true
  ↔ (mn ≤ length inp ≤ mx)%nat ∧ Forall (λ c, lo ≤ c ≤ hi) inp.
Proof.
  induction mx as [|mx IH]; intros mn bot inp k Hk.
  - rewrite re_match_Repeat_O, Hk.
    destruct inp as [|c rest], mn as [|mn]; simpl; split;
      first [ done | intros [? ?]; simpl in *; lia | intros; split; [lia | constructor] ].
  - rewrite re_match_Repeat_S, Hk. destruct inp as [|c rest].
    + destruct mn; simpl; split;
        first [ done | intros [? ?]; simpl in *; lia | intros; split; [lia | constructor] ].
    + rewrite re_match_CharClass_cons.
      rewrite andb_false_r, orb_false_r. split.
      * intros H. apply andb_prop in H as [H1 H2]. apply andb_prop in H1 as [H0 H1].
        apply Z.leb_le in H0, H1. apply IH in H2 as [H2 H3]; [|done].
        split; [simpl; lia | by constructor].
      * intros [H1 H2]. inversion H2 as [|? ? [H0 H0'] H3]; subst.
        apply andb_true_intro; split; [apply andb_true_intro; split; by apply Z.leb_le|].
        apply IH; [done|]. split; [simpl in H1; lia | done].
Qed.

Lemma is_digit_spec (c : ascii) : is_digit c = true ↔ 48 ≤ byte_to_Z c ≤ 57.
Proof. unfold is_digit. rewrite andb_true_iff, !Z.leb_le. done. Qed.

(** ** Fixed-width integers and indexing *)

Lemma to_int32_small (z : Z) : - 2 ^ 31 ≤ z < 2 ^ 31 → to_int32 z = z.
Proof. intros Hz. unfold to_int32. rewrite Z.mod_small; lia. Qed.

Lemma to_uint32_small (z : Z) : 0 ≤ z < 2 ^ 32 → to_uint32 z = z.
Proof. intros Hz. unfold to_uint32. by rewrite Z.mod_small. Qed.

Lemma to_uint64_small (z : Z) : 0 ≤ z < 2 ^ 64 → to_uint64 z = z.
Proof. intros Hz. unfold to_uint64. by rewrite Z.mod_small. Qed.

Lemma index_in_range (a : list ascii) (i : Z) :
  0 ≤ i < len a → index a i = Done (Ok (at_index a i)).
Proof.
  intros Hi. unfold index.
  destruct (Z.ltb_spec i 0); [lia|]. destruct (Z.leb_spec (len a) i); [lia|]. done.
Qed.

Lemma index_out_of_range (a : list ascii) (i : Z) :
  0 ≤ i → len a ≤ i → index a i = Panic (IndexOutOfRange i (len a)).
Proof.
  intros Hi Hl. unfold index.
  destruct (Z.ltb_spec i 0); [lia|]. destruct (Z.leb_spec (len a) i); [done|lia].
Qed.

(** ** Positional notation *)

Section Positional.
Variable b : Z.
Hypothesis Hb : 1 < b.

Lemma value_app (xs ys : list Z) :
  value b (xs ++ ys) = value b xs * b ^ len ys + value b ys.
Proof.
  induction xs as [|x xs IH]; simpl; [lia|].
  rewrite IH, len_app, Z.pow_add_r by apply len_nonneg. lia.
Qed.

Lemma value_bound (ds : list Z) :
  Forall (λ d, 0 ≤ d < b) ds → 0 ≤ value b ds < b ^ len ds.
Proof.
  induction 1 as [|d ds Hd _ IH]; simpl; [unfold len; simpl; lia|].
  replace (len (d :: ds)) with (len ds + 1) by (unfold len; simpl; lia).
  rewrite Z.pow_add_r, Z.pow_1_r by (pose proof (len_nonneg ds); lia).
  assert (0 < b ^ len ds) by (apply Z.pow_pos_nonneg; [lia | apply len_nonneg]).
  nia.
Qed.

Lemma value_inj (xs ys : list Z) :
  length xs = length ys →
  Forall (λ d, 0 ≤ d < b) xs → Forall (λ d, 0 ≤ d < b) ys →
  value b xs = value b ys → xs = ys.
Proof.
  revert ys. induction xs as [|x xs IH]; intros [|y ys] Hlen Hxs Hys Hv; try done.
  simpl in Hlen, Hv. inversion Hxs as [|? ? Hx Hxs']; inversion Hys as [|? ? Hy Hys']; subst.
  assert (Hl : len xs = len ys) by (unfold len; lia). rewrite Hl in Hv.
  pose proof (value_bound xs Hxs') as Bx. pose proof (value_bound ys Hys') as By.
  rewrite Hl in Bx.
  assert (x = y) by nia. subst y.
  f_equal. apply IH; [lia | done | done | lia].
Qed.

Lemma value_replicate_0 (k : nat) (ds : list Z) :
  value b (replicate k 0 ++ ds) = value b ds.
Proof. induction k as [|k IH]; simpl; [done|]. rewrite IH. lia. Qed.

Lemma digits_length (k : nat) (n : Z) : length (digits b k n) = k.
Proof. revert n. induction k as [|k IH]; intros n; simpl; [done|]. by rewrite IH. Qed.

Lemma digits_range (k : nat) (n : Z) :
  0 ≤ n < b ^ Z.of_nat k → Forall (λ d, 0 ≤ d < b) (digits b k n).
Proof.
  revert n. induction k as [|k IH]; intros n Hn; simpl; [constructor|].
  assert (Hp : 0 < b ^ Z.of_nat k) by (apply Z.pow_pos_nonneg; lia).
  rewrite Nat2Z.inj_succ, Z.pow_succ_r in Hn by lia.
  constructor.
  - split; [apply Z.div_pos; lia|]. apply Z.div_lt_upper_bound; lia.
  - apply IH. apply Z.mod_pos_bound. lia.
Qed.

Lemma value_digits (k : nat) (n : Z) :
  0 ≤ n < b ^ Z.of_nat k → value b (digits b k n) = n.
Proof.
  revert n. induction k as [|k IH]; intros n Hn; simpl.
  - simpl in Hn. lia.
  - assert (Hp : 0 < b ^ Z.of_nat k) by (apply Z.pow_pos_nonneg; lia).
    unfold len. rewrite digits_length, IH by (apply Z.mod_pos_bound; lia).
    pose proof (Z.div_mod n (b ^ Z.of_nat k)). lia.
Qed.

Lemma digits_value (ds : list Z) :
  Forall (λ d, 0 ≤ d < b) ds → digits b (length ds) (value b ds) = ds.
Proof.
  intros Hds. apply value_inj.
  - apply digits_length.
  - apply digits_range. by apply value_bound.
  - done.
  - apply value_digits. by apply value_bound.
Qed.

End Positional.

(** ** strconv *)

Lemma digit_vals_range (s : list ascii) :
  Forall (λ c, is_digit c = true) s → Forall (λ d, 0 ≤ d < 10) (digit_vals s).
Proof.
  intros Hs. unfold digit_vals. rewrite Forall_fmap.
  eapply Forall_impl; [|exact Hs]. intros c Hc. apply is_digit_spec in Hc. simpl. lia.
Qed.

Lemma digit_vals_inj (s t : list ascii) : digit_vals s = digit_vals t → s = t.
Proof.
  revert t. induction s as [|c s IH]; intros [|d t] H; try done.
  simpl in H. injection H as Hc Hs. f_equal; [|by apply IH].
  apply byte_to_Z_inj. lia.
Qed.

Lemma digit_vals_length (s : list ascii) : length (digit_vals s) = length s.
Proof. apply length_fmap. Qed.

Lemma ParseUint_loop_digits (maxVal : Z) (s : list ascii) : ∀ n,
  0 ≤ n →
  Forall (λ c, is_digit c = true) s →
  n * 10 ^ len s + value 10 (digit_vals s) ≤ maxVal →
  ParseUint_loop maxVal s n = Some (n * 10 ^ len s + value 10 (digit_vals s)).
Proof.
  induction s as [|c s IH]; intros n Hn Hs Hmax.
  - simpl. f_equal. unfold len. simpl. lia.
  - inversion Hs as [|? ? Hc Hs']; subst. simpl. rewrite Hc.
    apply is_digit_spec in Hc.
    assert (Hlen : len (c :: s) = len s + 1) by (unfold len; simpl; lia).
    assert (Hd : len (digit_vals s) = len s) by (unfold len; by rewrite digit_vals_length).
    rewrite Hlen, Z.pow_add_r, Z.pow_1_r in * by (pose proof (len_nonneg s); lia).
    simpl in Hmax. rewrite Hd in *.
    pose proof (value_bound 10 ltac:(lia) _ (digit_vals_range s Hs')) as Hv.
    assert (0 < 10 ^ len s) by (apply Z.pow_pos_nonneg; [lia | apply len_nonneg]).
    destruct (Z.gtb_spec (n * 10 + (byte_to_Z c - 48)) maxVal) as [Hgt|Hle]; [nia|].
    rewrite IH; [f_equal; lia | lia | done | nia].
Qed.

Lemma ParseUint_loop_inv (maxVal : Z) (s : list ascii) : ∀ n v,
  ParseUint_loop maxVal s n = Some v →
  Forall (λ c, is_digit c = true) s ∧ v = n * 10 ^ len s + value 10 (digit_vals s).
Proof.
  induction s as [|c s IH]; intros n v H.
  - simpl in H. injection H as <-. split; [constructor|]. unfold len. simpl. lia.
  - simpl in H. destruct (is_digit c) eqn:Hc; [|done].
    destruct (Z.gtb_spec (n * 10 + (byte_to_Z c - 48)) maxVal) as [Hgt|Hle]; [done|].
    apply IH in H as [Hs ->]. split; [by constructor|].
    assert (Hlen : len (c :: s) = len s + 1) by (unfold len; simpl; lia).
    assert (Hd : len (digit_vals s) = len s) by (unfold len; by rewrite digit_vals_length).
    rewrite Hlen, Z.pow_add_r, Z.pow_1_r by (pose proof (len_nonneg s); lia).
    simpl. rewrite Hd. lia.
Qed.

Lemma strconv_ParseUint_digits (s : list ascii) :
  s ≠ [] →
  Forall (λ c, is_digit c = true) s →
  value 10 (digit_vals s) ≤ 2 ^ 32 - 1 →
  strconv_ParseUint s 32 = Ok (value 10 (digit_vals s)).
Proof.
  intros Hne Hs Hmax. unfold strconv_ParseUint. destruct s as [|c s]; [done|].
  rewrite ParseUint_loop_digits; [by rewrite Z.mul_0_l, Z.add_0_l | lia | done | lia].
Qed.

Lemma strconv_ParseUint_inv (s : list ascii) (n : Z) :
  strconv_ParseUint s 32 = Ok n →
  Forall (λ c, is_digit c = true) s ∧ n = value 10 (digit_vals s).
Proof.
  unfold strconv_ParseUint. destruct s as [|c s]; [done|].
  destruct (ParseUint_loop _ _ _) as [v|] eqn:H; [|done].
  intros [= <-]. apply ParseUint_loop_inv in H as [Hs ->]. split; [done | lia].
Qed.

Lemma digit_byte (d : Z) :
  0 ≤ d < 10 → is_digit (byte_of_Z (48 + d)) = true ∧ byte_to_Z (byte_of_Z (48 + d)) - 48 = d.
Proof.
  intros Hd. rewrite is_digit_spec, byte_to_of_Z by lia. lia.
Qed.

Lemma Itoa_loop_spec (fuel : nat) : ∀ u acc,
  0 ≤ u < 2 ^ Z.of_nat fuel →
  ∃ r, Itoa_loop fuel u acc = r ++ acc
       ∧ Forall (λ c, is_digit c = true) r
       ∧ value 10 (digit_vals r) = u.
Proof.
  induction fuel as [|fuel IH]; intros u acc Hu.
  - exists []. simpl in *. split; [done|]. split; [constructor | lia].
  - simpl. rewrite Nat2Z.inj_succ, Z.pow_succ_r in Hu by lia.
    pose proof (Z.mod_pos_bound u 10 ltac:(lia)) as Hm.
    pose proof (Z.div_mod u 10 ltac:(lia)) as Hdm.
    destruct (digit_byte (u mod 10) Hm) as [Hdig Hval].
    destruct (Z.eqb_spec (u / 10) 0) as [H0|H0].
    + exists [byte_of_Z (48 + u mod 10)]. split; [done|]. split; [by repeat constructor|].
      simpl. rewrite Hval. unfold len. simpl. lia.
    + destruct (IH (u / 10) (byte_of_Z (48 + u mod 10) :: acc)) as (r & Hr & Hd & Hv).
      { split; [apply Z.div_pos; lia|]. apply Z.div_lt_upper_bound; lia. }
      exists (r ++ [byte_of_Z (48 + u mod 10)]). split; [by rewrite <- app_assoc|].
      split; [apply Forall_app; split; [done | by repeat constructor]|].
      unfold digit_vals. rewrite fmap_app. fold (digit_vals r).
      rewrite value_app. simpl. rewrite Hval, Hv. unfold len. simpl. lia.
Qed.

Lemma Itoa_loop_length (fuel : nat) : ∀ u acc (s : Z),
  1 ≤ s → 0 ≤ u < 10 ^ s →
  len (Itoa_loop fuel u acc) ≤ s + len acc.
Proof.
  induction fuel as [|fuel IH]; intros u acc s Hs Hu; simpl; [lia|].
  destruct (Z.eqb_spec (u / 10) 0) as [H0|H0].
  - unfold len. simpl. lia.
  - assert (10 ≤ u) by (destruct (Z_lt_le_dec u 10); [rewrite Z.div_small in H0; lia | done]).
    assert (2 ≤ s).
    { destruct (Z_lt_le_dec s 2); [|done]. assert (s = 1) by lia. subst. simpl in Hu. lia. }
    etrans; [apply (IH _ _ (s - 1)); [lia|]|].
    + split; [apply Z.div_pos; lia|]. apply Z.div_lt_upper_bound; [lia|].
      rewrite <- Z.pow_succ_r by lia. replace (Z.succ (s - 1)) with s by lia. lia.
    + unfold len. simpl. lia.
Qed.

Lemma strconv_Itoa_spec (u : Z) :
  0 ≤ u →
  Forall (λ c, is_digit c = true) (strconv_Itoa u)
  ∧ value 10 (digit_vals (strconv_Itoa u)) = u
  ∧ ∀ s, 1 ≤ s → u < 10 ^ s → len (strconv_Itoa u) ≤ s.
Proof.
  intros Hu. unfold strconv_Itoa. destruct (Z.ltb_spec u 0) as [|_]; [lia|].
  destruct (Itoa_loop_spec (S (Z.to_nat (Z.log2 u))) u []) as (r & Hr & Hd & Hv).
  { split; [done|]. rewrite Nat2Z.inj_succ, Z2Nat.id by apply Z.log2_nonneg.
    destruct (Z.eq_dec u 0) as [->|]; [done|]. apply Z.log2_spec. lia. }
  rewrite Hr, app_nil_r. split; [done|]. split; [done|].
  intros s Hs Hlt. rewrite <- (app_nil_r r), <- Hr.
  etrans; [apply Itoa_loop_length; [exact Hs | lia]|]. unfold len. simpl. lia.
Qed.

(** Zero padding to a fixed width inverts parsing. *)
Lemma pad_Itoa (d : list ascii) :
  d ≠ [] →
  Forall (λ c, is_digit c = true) d →
  let u := value 10 (digit_vals d) in
  replicate (Z.to_nat (len d - len (strconv_Itoa u))) (byte_of_Z 48) ++ strconv_Itoa u = d.
Proof.
  intros Hne Hd u.
  pose proof (value_bound 10 ltac:(lia) _ (digit_vals_range d Hd)) as Hu.
  assert (Hl : len (digit_vals d) = len d) by (unfold len; by rewrite digit_vals_length).
  rewrite Hl in Hu. fold u in Hu.
  destruct (strconv_Itoa_spec u ltac:(lia)) as (Hdig & Hval & Hlen).
  assert (1 ≤ len d) by (destruct d; [done | unfold len; simpl; lia]).
  specialize (Hlen (len d) ltac:(lia) ltac:(lia)).
  apply digit_vals_inj. apply (value_inj 10 ltac:(lia)).
  - rewrite !digit_vals_length, length_app, length_replicate. unfold len in *. lia.
  - apply digit_vals_range. apply Forall_app. split; [|done].
    apply Forall_replicate. by apply (digit_byte 0).
  - by apply digit_vals_range.
  - unfold digit_vals at 1. rewrite fmap_app. fold (digit_vals (strconv_Itoa u)).
    rewrite fmap_replicate. replace (byte_to_Z (byte_of_Z 48) - 48) with 0
      by (rewrite byte_to_of_Z; lia).
    rewrite value_replicate_0. done.
Qed.

Lemma pad_Itoa_value (n s : Z) :
  1 ≤ s → 0 ≤ n < 10 ^ s →
  let d := replicate (Z.to_nat (s - len (strconv_Itoa n))) (byte_of_Z 48) ++ strconv_Itoa n in
  len d = s ∧ Forall (λ c, is_digit c = true) d ∧ value 10 (digit_vals d) = n.
Proof.
  intros Hs Hn d.
  destruct (strconv_Itoa_spec n ltac:(lia)) as (Hdig & Hval & Hlen).
  specialize (Hlen s Hs ltac:(lia)).
  split; [|split].
  - unfold d, len in *. rewrite length_app, length_replicate. lia.
  - apply Forall_app. split; [|done]. apply Forall_replicate. by apply (digit_byte 0).
  - unfold d, digit_vals. rewrite fmap_app, fmap_replicate. fold (digit_vals (strconv_Itoa n)).
    replace (byte_to_Z (byte_of_Z 48) - 48) with 0 by (rewrite byte_to_of_Z; lia).
    by rewrite value_replicate_0 by lia.
Qed.

End GoFacts.

(* ===================================================================== *)
(** * Part VI: the base codec                                            *)
(* ===================================================================== *)

Module Codec.
Import Go tkengine Notions GoFacts.

(** ** alphaMap and alphabets *)

Lemma alphaMap_fill_notin (alpha : list ascii) : ∀ i (mp : gmap ascii Z) c,
  c ∉ alpha → alphaMap_fill i alpha mp !! c = mp !! c.
Proof.
  induction alpha as [|el rest IH]; intros i mp c Hc; simpl; [done|].
  apply not_elem_of_cons in Hc as [Hne Hc].
  rewrite IH by done. by rewrite lookup_insert_ne.
Qed.

Lemma alphaMap_fill_lookup (alpha : list ascii) : ∀ i (mp : gmap ascii Z) (k : nat) c,
  NoDup alpha → alpha !! k = Some c →
  alphaMap_fill i alpha mp !! c = Some (i + Z.of_nat k).
Proof.
  induction alpha as [|el rest IH]; intros i mp k c Hnd Hk; [done|].
  apply list.NoDup_cons in Hnd as [Hel Hnd]. simpl. destruct k as [|k]; simpl in Hk.
  - injection Hk as ->. rewrite alphaMap_fill_notin by done.
    rewrite lookup_insert_eq. f_equal. lia.
  - rewrite (IH _ _ k c) by done. f_equal. lia.
Qed.

Lemma alphaMap_fill_is_Some (alpha : list ascii) : ∀ i (mp : gmap ascii Z) c,
  is_Some (alphaMap_fill i alpha mp !! c) ↔ c ∈ alpha ∨ is_Some (mp !! c).
Proof.
  induction alpha as [|el rest IH]; intros i mp c; simpl.
  - rewrite elem_of_nil. tauto.
  - rewrite IH, elem_of_cons. destruct (decide (c = el)) as [->|Hne].
    + rewrite lookup_insert_eq. split; [intros _; by left; left | intros _; right; eauto].
    + rewrite lookup_insert_ne by done. tauto.
Qed.

Lemma alphaMap_of_is_Some (alpha : list ascii) c :
  is_Some (alphaMap_of alpha !! c) ↔ c ∈ alpha.
Proof.
  unfold alphaMap_of. rewrite alphaMap_fill_is_Some, lookup_empty.
  split; [intros [?|[? ?]]; done | by left].
Qed.

Lemma at_index_lookup (alpha : list ascii) (m : Z) :
  0 ≤ m < len alpha → alpha !! Z.to_nat m = Some (at_index alpha m).
Proof.
  intros Hm. unfold at_index. rewrite nth_lookup.
  destruct (alpha !! Z.to_nat m) eqn:H; [done|].
  apply lookup_ge_None in H. unfold len in Hm. lia.
Qed.

Lemma alphaMap_of_at_index (alpha : list ascii) (m : Z) :
  NoDup alpha → 0 ≤ m < len alpha →
  alphaMap_of alpha !! at_index alpha m = Some m.
Proof.
  intros Hnd Hm. unfold alphaMap_of.
  rewrite (alphaMap_fill_lookup _ _ _ (Z.to_nat m)) by (done || by apply at_index_lookup).
  f_equal. lia.
Qed.

Lemma at_index_elem (alpha : list ascii) (m : Z) :
  0 ≤ m < len alpha → at_index alpha m ∈ alpha.
Proof. intros Hm. eapply list_elem_of_lookup_2. by apply at_index_lookup. Qed.

Lemma symbols_of_elems (alpha t : list ascii) :
  Forall (λ c, c ∈ alpha) t →
  ∃ ms, t = symbols alpha ms ∧ Forall (λ m, 0 ≤ m < len alpha) ms.
Proof.
  induction 1 as [|c t Hc _ (ms & -> & Hms)].
  - by exists [].
  - apply list_elem_of_lookup_1 in Hc as [k Hk].
    exists (Z.of_nat k :: ms). split.
    + simpl. f_equal. unfold at_index. rewrite Nat2Z.id, nth_lookup. by rewrite Hk.
    + constructor; [|done]. apply lookup_lt_Some in Hk. unfold len. lia.
Qed.

Lemma symbols_length alpha ms : length (symbols alpha ms) = length ms.
Proof. apply length_fmap. Qed.

Lemma symbols_elems (alpha : list ascii) ms :
  Forall (λ m, 0 ≤ m < len alpha) ms → Forall (λ c, c ∈ alpha) (symbols alpha ms).
Proof.
  intros H. unfold symbols. rewrite Forall_fmap. eapply Forall_impl; [|exact H].
  intros m Hm. by apply at_index_elem.
Qed.

Lemma utf8_cons c cs : utf8 (c :: cs) = string_of_byte c ++ utf8 cs.
Proof. reflexivity. Qed.

Lemma utf8_ascii (cs : list ascii) : Forall is_ascii cs → utf8 cs = cs.
Proof.
  induction 1 as [|c cs Hc _ IH]; [done|].
  rewrite utf8_cons, IH. by rewrite string_of_byte_ascii.
Qed.

(** ** The base-selection table *)

Lemma encodingBaseToSaveOneChar_inv (s b : Z) :
  encodingBaseToSaveOneChar s = Ok b →
  3 ≤ s ≤ 9 ∧ b ∈ requiredBases ∧ 1 < b ∧ 10 ^ s ≤ b ^ (s - 1) ∧ b ^ (s - 1) < 2 ^ 31.
Proof.
  unfold encodingBaseToSaveOneChar.
  destruct (Z.ltb_spec s 3); [done|]. destruct (Z.gtb_spec s 9); [done|]. simpl.
  intros [= <-]. split; [lia|].
  assert (Hs : s = 3 ∨ s = 4 ∨ s = 5 ∨ s = 6 ∨ s = 7 ∨ s = 8 ∨ s = 9) by lia.
  destruct Hs as [->|[->|[->|[->|[->|[->| ->]]]]]];
    (split; [vm_compute; repeat first [apply list_elem_of_here | apply list_elem_of_further]|]);
    vm_compute; repeat split; congruence.
Qed.

Lemma encodingBaseToSaveOneChar_total (s : Z) :
  3 ≤ s ≤ 9 → ∃ b, encodingBaseToSaveOneChar s = Ok b.
Proof.
  intros Hs. unfold encodingBaseToSaveOneChar.
  destruct (Z.ltb_spec s 3); [lia|]. destruct (Z.gtb_spec s 9); [lia|]. simpl. eauto.
Qed.

(** ** The two loops *)

Section EncodeLoop.
Variables (alpha : list ascii) (b fsize : Z).
Hypothesis Hb : 1 < b.
Hypothesis Hfit : b ^ fsize < 2 ^ 31.

Lemma pow_le_fsize (k : Z) : 0 ≤ k ≤ fsize → 0 < b ^ k ≤ b ^ fsize.
Proof.
  intros Hk. split; [apply Z.pow_pos_nonneg; lia|].
  apply Z.pow_le_mono_r; lia.
Qed.

Lemma encodeTkMD_loop_run (k : nat) : ∀ i n strb,
  fsize - i = Z.of_nat k - 1 →
  Z.of_nat k ≤ fsize →
  0 ≤ n < b ^ Z.of_nat k →
  (forallb (λ m, m <? len alpha) (digits b k n) = true →
   encodeTkMD_loop alpha b fsize (seqZ i (Z.of_nat k)) n strb
   = Done (Ok (strb ++ utf8 (symbols alpha (digits b k n)))))
  ∧ (forallb (λ m, m <? len alpha) (digits b k n) = false →
     ∃ p, encodeTkMD_loop alpha b fsize (seqZ i (Z.of_nat k)) n strb = Panic p).
Proof.
  induction k as [|k IH]; intros i n strb Hi Hk Hn.
  - simpl. split; [intros _; by rewrite app_nil_r | done].
  - rewrite Nat2Z.inj_succ, seqZ_cons by lia.
    replace (Z.pred (Z.succ (Z.of_nat k))) with (Z.of_nat k) by lia.
    cbn [encodeTkMD_loop digits forallb]. unfold math_Pow.
    replace (fsize - i) with (Z.of_nat k) by lia.
    destruct (pow_le_fsize (Z.of_nat k) ltac:(lia)) as [Hp0 Hp1].
    destruct (pow_le_fsize (Z.of_nat (S k)) ltac:(lia)) as [_ Hp2].
    rewrite Nat2Z.inj_succ in Hp2, Hn.
    assert (Hn' : n < b * b ^ Z.of_nat k) by (rewrite <- Z.pow_succ_r by lia; lia).
    set (p := b ^ Z.of_nat k) in *. clearbody p.
    assert (Hpr : - 2 ^ 31 ≤ p < 2 ^ 31) by lia.
    assert (Hnr : - 2 ^ 31 ≤ n < 2 ^ 31) by lia.
    rewrite (to_int32_small p Hpr), (to_int32_small n Hnr).
    destruct (Z.eqb_spec p 0) as [|_]; [lia|].
    assert (Hq : 0 ≤ n / p < b).
    { 
      split; [apply Z.div_pos; lia | apply Z.div_lt_upper_bound; lia]. }
    assert (Hr : 0 ≤ n mod p < p) by (apply Z.mod_pos_bound; lia).
    rewrite Z.quot_div_nonneg, Z.rem_mod_nonneg by lia.
    destruct (pow_le_fsize 1 ltac:(lia)) as [_ Hb1]. rewrite Z.pow_1_r in Hb1.
    rewrite to_uint32_small, to_uint64_small by lia.
    destruct (Z.ltb_spec (n / p) (len alpha)) as [Hin|Hout].
    + rewrite index_in_range by lia. simpl.
      destruct (IH (Z.succ i) (n mod p) (strb ++ string_of_byte (at_index alpha (n / p))))
        as [IH1 IH2]; [lia | lia | done |].
      split.
      * intros Hall. rewrite IH1 by done.
        change (symbols alpha (n / p :: digits b k (n mod p)))
          with (at_index alpha (n / p) :: symbols alpha (digits b k (n mod p))).
        by rewrite utf8_cons, app_assoc.
      * intros Hall. destruct (IH2 Hall) as [q Hq']. exists q. by rewrite Hq'.
    + rewrite index_out_of_range by lia. simpl. split; [done | eauto].
Qed.

End EncodeLoop.

Section DecodeLoop.
Variables (alpha : list ascii) (b L : Z).
Hypothesis Hb : 1 < b.
Hypothesis Hnd : NoDup alpha.

Lemma decodeTkMD_loop_symbols (ms : list Z) : ∀ i acc,
  L - i = len ms →
  Forall (λ m, 0 ≤ m < b ∧ m < len alpha) ms →
  0 ≤ acc → acc + b ^ len ms ≤ 2 ^ 32 →
  decodeTkMD_loop (alphaMap_of alpha) b L i (symbols alpha ms) acc
  = Ok (acc + value b ms).
Proof.
  induction ms as [|m ms IH]; intros i acc Hi Hms Hacc Hfit.
  - simpl. f_equal. lia.
  - inversion Hms as [|? ? [Hm Hma] Hms']; subst.
    change (symbols alpha (m :: ms)) with (at_index alpha m :: symbols alpha ms).
    cbn [decodeTkMD_loop value]. rewrite alphaMap_of_at_index by (done || lia).
    unfold math_Pow.
    assert (Hl : len (m :: ms) = len ms + 1) by (unfold len; simpl; lia).
    rewrite Hl in Hi, Hfit. replace (L - 1 - i) with (len ms) by lia.
    pose proof (len_nonneg ms) as Hl0.
    rewrite Z.pow_add_r, Z.pow_1_r in Hfit by lia.
    assert (Hp : 0 < b ^ len ms) by (apply Z.pow_pos_nonneg; lia).
    rewrite (to_uint32_small m), (to_uint32_small (b ^ len ms)) by nia.
    rewrite (to_uint32_small (m * b ^ len ms)) by nia.
    rewrite to_uint32_small by nia.
    rewrite IH; [f_equal; lia | lia | done | nia | nia].
Qed.

End DecodeLoop.

Lemma decodeTkMD_loop_inv (mp : gmap ascii Z) b L (t : list ascii) : ∀ i acc n,
  decodeTkMD_loop mp b L i t acc = Ok n → Forall (λ c, is_Some (mp !! c)) t.
Proof.
  induction t as [|c t IH]; intros i acc n H; [constructor|].
  simpl in H. destruct (mp !! c) as [m|] eqn:Hc; [|done].
  constructor; [by rewrite Hc | by eapply IH].
Qed.

(** ** validateAlphabetProvider *)

Lemma uniqueSymbols_fill_spec (alpha : list ascii) : ∀ s : gset ascii,
  uniqueSymbols_fill alpha s = list_to_set alpha ∪ s.
Proof.
  induction alpha as [|c alpha IH]; intros s; simpl.
  - by rewrite (left_id_L ∅ (∪)).
  - rewrite IH, (assoc_L (∪)), (comm_L (∪) (list_to_set alpha) {[c]}). done.
Qed.

Lemma size_list_to_set_le (l : list ascii) :
  (size (list_to_set l : gset ascii) ≤ length l)%nat.
Proof.
  induction l as [|x l IH]; [done|]. cbn [list_to_set foldr length].
  destruct (decide (x ∈ (list_to_set l : gset ascii))) as [Hin|Hout].
  - replace ({[x]} ∪ list_to_set l : gset ascii) with (list_to_set l : gset ascii)
      by (symmetry; by apply subseteq_union_1_L, singleton_subseteq_l). lia.
  - rewrite size_union by (by apply disjoint_singleton_l). rewrite size_singleton. lia.
Qed.

Lemma size_list_to_set_NoDup (l : list ascii) :
  size (list_to_set l : gset ascii) = length l → NoDup l.
Proof.
  induction l as [|x l IH]; [constructor|]. cbn [list_to_set foldr length]. intros Hsz.
  pose proof (size_list_to_set_le l) as Hle.
  destruct (decide (x ∈ (list_to_set l : gset ascii))) as [Hin|Hout].
  - replace ({[x]} ∪ list_to_set l : gset ascii) with (list_to_set l : gset ascii) in Hsz
      by (symmetry; by apply subseteq_union_1_L, singleton_subseteq_l). lia.
  - rewrite size_union, size_singleton in Hsz by (by apply disjoint_singleton_l).
    apply NoDup_cons_2; [by rewrite <- (elem_of_list_to_set (C := gset ascii)) | apply IH; lia].
Qed.

Lemma validateAlphabetProvider_loop_ok (ap : AlphabetProvider) (bases : list Z) :
  validateAlphabetProvider_loop ap bases = None →
  ∀ base, base ∈ bases →
    ∃ alpha, GetAlphabetForBase ap base = Ok alpha ∧ len alpha = base ∧ NoDup alpha.
Proof.
  induction bases as [|i rest IH]; intros Hv base Hin; [by apply elem_of_nil in Hin|].
  simpl in Hv. destruct (GetAlphabetForBase ap i) as [alpha|] eqn:Hget; [|done].
  destruct (Z.eqb_spec (len alpha) i) as [Hlen|]; [|done]. simpl in Hv.
  destruct (Z.eqb_spec (Z.of_nat (size (uniqueSymbols_fill alpha ∅))) (len alpha))
    as [Hsz|]; [|done]. simpl in Hv.
  apply elem_of_cons in Hin as [->|Hin]; [|by apply IH].
  exists alpha. split; [done|]. split; [done|].
  apply size_list_to_set_NoDup.
  rewrite uniqueSymbols_fill_spec, (right_id_L ∅ (∪)) in Hsz. unfold len in Hsz. lia.
Qed.

Lemma validateAlphabetProvider_ok (ap : AlphabetProvider) :
  validateAlphabetProvider ap = None →
  ∀ base, base ∈ requiredBases →
    ∃ alpha, GetAlphabetForBase ap base = Ok alpha ∧ len alpha = base ∧ NoDup alpha.
Proof. apply validateAlphabetProvider_loop_ok. Qed.

Lemma validateAlphabetProvider_distinct (ap : AlphabetProvider) :
  validateAlphabetProvider ap = None → distinct_alphabets ap.
Proof.
  intros Hv base alpha Hb Hget.
  destruct (validateAlphabetProvider_ok ap Hv base Hb) as (a & Ha & _ & Hnd). congruence.
Qed.

(** ** encodeTkMD and decodeTkMD *)

(** What the constructors establish. *)
Lemma NewEngine_alphabets (versioner : KeyVersioner) (encryptionKeys hmacKeys : KeyRepo)
    (ap : AlphabetProvider) (e : engine) :
  NewEngine versioner encryptionKeys hmacKeys ap = Ok e →
  alphaProvider e = ap
  ∧ distinct_alphabets ap
  ∧ ∀ base, base ∈ requiredBases →
      ∃ alpha, GetAlphabetForBase ap base = Ok alpha ∧ len alpha = base.
Proof.
  unfold NewEngine. destruct (validateAlphabetProvider ap) eqn:Hv; [done|].
  intros [= <-]. split; [done|]. split; [by apply validateAlphabetProvider_distinct|].
  intros base Hb. destruct (validateAlphabetProvider_ok ap Hv base Hb) as (alpha & ? & ? & _).
  by exists alpha.
Qed.

Lemma forallb_lt_Forall (n : Z) (ms : list Z) :
  forallb (λ m, m <? n) ms = true ↔ Forall (λ m, m < n) ms.
Proof.
  rewrite forallb_forall, Forall_forall. setoid_rewrite <- list_elem_of_In.
  split; intros H m Hm; specialize (H m Hm); by apply Z.ltb_lt.
Qed.

Section Encode.
Variables (ap : AlphabetProvider) (d : list ascii) (b : Z) (alpha : list ascii).
Hypothesis Hlen : 3 ≤ len d ≤ 9.
Hypothesis Hbase : encodingBaseToSaveOneChar (len d) = Ok b.
Hypothesis Hget : GetAlphabetForBase ap b = Ok alpha.
Hypothesis Hd : Forall (λ c, is_digit c = true) d.

Local Abbreviation ms := (digits b (Z.to_nat (len d - 1)) (value 10 (digit_vals d))).

Lemma encode_value_fits :
  0 ≤ value 10 (digit_vals d) < b ^ Z.of_nat (Z.to_nat (len d - 1)).
Proof.
  destruct (encodingBaseToSaveOneChar_inv _ _ Hbase) as (_ & _ & Hb1 & Hcap & Hfit).
  pose proof (value_bound 10 ltac:(lia) _ (digit_vals_range d Hd)) as Hv.
  assert (Hl : len (digit_vals d) = len d) by (unfold len; by rewrite digit_vals_length).
  rewrite Hl in Hv. rewrite Z2Nat.id by lia. lia.
Qed.

Lemma encode_digits_range : Forall (λ m, 0 ≤ m < b) ms.
Proof.
  destruct (encodingBaseToSaveOneChar_inv _ _ Hbase) as (_ & _ & Hb1 & _).
  apply digits_range; [done | apply encode_value_fits].
Qed.

Lemma encode_digits_value : value b ms = value 10 (digit_vals d).
Proof.
  destruct (encodingBaseToSaveOneChar_inv _ _ Hbase) as (_ & _ & Hb1 & _).
  apply value_digits; [done | apply encode_value_fits].
Qed.

Lemma encode_digits_length : len ms = len d - 1.
Proof. unfold len. rewrite digits_length. unfold len in *. lia. Qed.

Lemma encodeTkMD_run :
  (Forall (λ m, m < len alpha) ms →
   encodeTkMD d ap = Done (Ok (utf8 (symbols alpha ms))))
  ∧ (¬ Forall (λ m, m < len alpha) ms → ∃ p, encodeTkMD d ap = Panic p).
Proof.
  destruct (encodingBaseToSaveOneChar_inv _ _ Hbase) as (_ & _ & Hb1 & Hcap & Hfit).
  pose proof encode_value_fits as Hv.
  unfold encodeTkMD.
  destruct (Z.ltb_spec (len d) 3); [lia|]. destruct (Z.gtb_spec (len d) 9); [lia|].
  cbn [orb].
  rewrite strconv_ParseUint_digits; [| destruct d; [unfold len in Hlen; simpl in Hlen; lia | done] | done |].
  2:{ rewrite Z2Nat.id in Hv by lia. lia. }
  rewrite Hbase, Hget.
  destruct (encodeTkMD_loop_run alpha b (len d - 1) Hb1 Hfit (Z.to_nat (len d - 1)) 1
              (value 10 (digit_vals d)) []) as [H1 H2]; [lia | lia | done |].
  rewrite Z2Nat.id in H1, H2 by lia.
  split.
  - intros Hall. apply H1. by apply forallb_lt_Forall.
  - intros Hall. apply H2. apply not_true_is_false. by rewrite forallb_lt_Forall.
Qed.

End Encode.

Lemma encodeTkMD_inv (ap : AlphabetProvider) (c out : list ascii) :
  encodeTkMD c ap = Done (Ok out) →
  ∃ b alpha,
    3 ≤ len c ≤ 9 ∧ Forall (λ x, is_digit x = true) c
    ∧ encodingBaseToSaveOneChar (len c) = Ok b
    ∧ GetAlphabetForBase ap b = Ok alpha
    ∧ let ms := digits b (Z.to_nat (len c - 1)) (value 10 (digit_vals c)) in
      Forall (λ m, m < len alpha) ms ∧ out = utf8 (symbols alpha ms).
Proof.
  intros H. pose proof H as H0. unfold encodeTkMD in H.
  destruct (Z.ltb_spec (len c) 3); [done|]. destruct (Z.gtb_spec (len c) 9); [done|].
  cbn [orb] in H.
  destruct (strconv_ParseUint c 32) as [n|] eqn:Hparse; [|done].
  destruct (encodingBaseToSaveOneChar (len c)) as [b|] eqn:Hbase; [|done].
  destruct (GetAlphabetForBase ap b) as [alpha|] eqn:Hget; [|done].
  apply strconv_ParseUint_inv in Hparse as [Hd ->].
  exists b, alpha. repeat (split; [done || lia|]).
  destruct (encodeTkMD_run ap c b alpha ltac:(lia) Hbase Hget Hd) as [Hrun1 Hrun2].
  intros ms.
  destruct (decide (Forall (λ m, m < len alpha) ms)) as [Hall|Hnot].
  - split; [done|]. specialize (Hrun1 Hall). subst ms.
    rewrite Hrun1 in H0. by injection H0 as <-.
  - destruct (Hrun2 Hnot) as [p Hp]. rewrite Hp in H0. done.
Qed.

Lemma decodeTkMD_symbols (ap : AlphabetProvider) (b : Z) (alpha : list ascii) (ms : list Z) :
  2 ≤ len ms ≤ 8 →
  encodingBaseToSaveOneChar (len ms + 1) = Ok b →
  GetAlphabetForBase ap b = Ok alpha →
  NoDup alpha →
  Forall (λ m, 0 ≤ m < b ∧ m < len alpha) ms →
  decodeTkMD (symbols alpha ms) ap
  = Ok (replicate (Z.to_nat (len ms + 1 - len (strconv_Itoa (value b ms)))) (byte_of_Z 48)
        ++ strconv_Itoa (value b ms)).
Proof.
  intros Hlen Hbase Hget Hnd Hms.
  destruct (encodingBaseToSaveOneChar_inv _ _ Hbase) as (_ & _ & Hb1 & Hcap & Hfit).
  assert (Hl : len (symbols alpha ms) = len ms) by (unfold len; by rewrite symbols_length).
  unfold decodeTkMD. rewrite Hl.
  destruct (Z.ltb_spec (len ms) 2); [lia|]. destruct (Z.gtb_spec (len ms) 8); [lia|].
  cbn [orb]. rewrite Hbase, Hget.
  replace (len ms + 1 - 1) with (len ms) in Hfit by lia.
  rewrite (decodeTkMD_loop_symbols alpha b (len ms) Hb1 Hnd ms 0 0); [done | lia | done | lia | lia].
Qed.

(** ** Round trips *)

Lemma decode_encode (ap : AlphabetProvider) (d : list ascii) :
  distinct_alphabets ap → ascii_alphabets ap →
  ∀ t, encodeTkMD d ap = Done (Ok t) →
  len t = len d - 1 ∧ decodeTkMD t ap = Ok d.
Proof.
  intros Hnd Hascii t Henc.
  destruct (encodeTkMD_inv ap d t Henc) as (b & alpha & Hlen & Hd & Hbase & Hget & Hall & ->).
  destruct (encodingBaseToSaveOneChar_inv _ _ Hbase) as (_ & Hreq & Hb1 & _).
  specialize (Hnd b alpha Hreq Hget). specialize (Hascii b alpha Hreq Hget).
  set (ms := digits b (Z.to_nat (len d - 1)) (value 10 (digit_vals d))) in *.
  pose proof (encode_digits_range d b Hlen Hbase Hd) as Hrange.
  pose proof (encode_digits_value d b Hlen Hbase Hd) as Hval.
  pose proof (encode_digits_length d b Hlen) as Hl. fold ms in Hrange, Hval, Hl.
  assert (Hin : Forall (λ m, 0 ≤ m < len alpha) ms).
  { eapply Forall_impl2; [exact Hrange | exact Hall |]. simpl. lia. }
  rewrite utf8_ascii.
  2:{ eapply Forall_impl; [|apply symbols_elems, Hin].
      intros c Hc. by eapply (proj1 (list.Forall_forall _ _) Hascii). }
  split; [unfold len in *; rewrite symbols_length; lia|].
  rewrite (decodeTkMD_symbols ap b alpha ms); try done.
  - rewrite Hval. replace (len ms + 1) with (len d) by lia. f_equal.
    apply pad_Itoa; [|done]. intros ->. unfold len in Hlen. simpl in Hlen. lia.
  - lia.
  - by replace (len ms + 1) with (len d) by lia.
  - eapply Forall_impl2; [exact Hrange | exact Hall |]. simpl. lia.
Qed.

Lemma encode_total (ap : AlphabetProvider) (d : list ascii) :
  validateAlphabetProvider ap = None →
  3 ≤ len d ≤ 9 → Forall (λ c, is_digit c = true) d →
  ∃ t, encodeTkMD d ap = Done (Ok t).
Proof.
  intros Hv Hlen Hd.
  destruct (encodingBaseToSaveOneChar_total (len d) Hlen) as [b Hbase].
  destruct (encodingBaseToSaveOneChar_inv _ _ Hbase) as (_ & Hreq & Hb1 & _).
  destruct (validateAlphabetProvider_ok ap Hv b Hreq) as (alpha & Hget & Hsz & _).
  destruct (encodeTkMD_run ap d b alpha Hlen Hbase Hget Hd) as [Hrun _].
  eexists. apply Hrun. rewrite Hsz.
  eapply Forall_impl; [|apply (encode_digits_range d b Hlen Hbase Hd)]. simpl. lia.
Qed.

Lemma strconv_Itoa_lt_pow (n : Z) : 0 ≤ n → n < 10 ^ len (strconv_Itoa n).
Proof.
  intros Hn. destruct (strconv_Itoa_spec n Hn) as (Hdig & Hval & _).
  pose proof (value_bound 10 ltac:(lia) _ (digit_vals_range _ Hdig)) as Hb.
  rewrite Hval in Hb. unfold len in *. rewrite digit_vals_length in Hb. lia.
Qed.

Lemma pad_Itoa_any (n s : Z) :
  0 ≤ n →
  let d := replicate (Z.to_nat (s - len (strconv_Itoa n))) (byte_of_Z 48) ++ strconv_Itoa n in
  Forall (λ c, is_digit c = true) d ∧ value 10 (digit_vals d) = n ∧ s ≤ len d.
Proof.
  intros Hn d. destruct (strconv_Itoa_spec n Hn) as (Hdig & Hval & _).
  split; [|split].
  - apply Forall_app. split; [|done]. apply Forall_replicate. by apply (digit_byte 0).
  - unfold d, digit_vals. rewrite fmap_app, fmap_replicate. fold (digit_vals (strconv_Itoa n)).
    replace (byte_to_Z (byte_of_Z 48) - 48) with 0 by (rewrite byte_to_of_Z; lia).
    by rewrite value_replicate_0 by lia.
  - unfold d, len. rewrite length_app, length_replicate. lia.
Qed.

Lemma encode_decode (ap : AlphabetProvider) (t : list ascii) (b : Z) (alpha : list ascii) :
  validateAlphabetProvider ap = None → ascii_alphabets ap →
  2 ≤ len t ≤ 8 →
  encodingBaseToSaveOneChar (len t + 1) = Ok b →
  GetAlphabetForBase ap b = Ok alpha →
  Forall (λ c, c ∈ alpha) t →
  ∃ d n, decodeTkMD t ap = Ok d
         ∧ strconv_ParseUint d 32 = Ok n
         ∧ (encodeTkMD d ap = Done (Ok t) ↔ n < 10 ^ (len t + 1))
         ∧ (len d = len t + 1 ↔ n < 10 ^ (len t + 1)).
Proof.
  intros Hv Hascii Hlen Hbase Hget Ht.
  destruct (encodingBaseToSaveOneChar_inv _ _ Hbase) as (_ & Hreq & Hb1 & Hcap & Hfit).
  destruct (validateAlphabetProvider_ok ap Hv b Hreq) as (alpha' & Hget' & Hsz & Hnd).
  assert (alpha' = alpha) as -> by congruence.
  destruct (symbols_of_elems alpha t Ht) as (ms & -> & Hms).
  assert (Hl : len (symbols alpha ms) = len ms) by (unfold len; by rewrite symbols_length).
  rewrite Hl in *.
  assert (Hms' : Forall (λ m, 0 ≤ m < b ∧ m < len alpha) ms).
  { eapply Forall_impl; [|exact Hms]. simpl. lia. }
  assert (Hmsb : Forall (λ m, 0 ≤ m < b) ms).
  { eapply Forall_impl; [|exact Hms]. simpl. lia. }
  pose proof (value_bound b Hb1 ms Hmsb) as Hn.
  replace (len ms + 1 - 1) with (len ms) in Hfit by lia.
  destruct (pad_Itoa_any (value b ms) (len ms + 1) ltac:(lia)) as (Hdd & Hdv & Hdge).
  eexists _, (value b ms). split; [by apply decodeTkMD_symbols|].
  set (d := replicate _ _ ++ _) in *.
  assert (Hwidth : len d = len ms + 1 ↔ value b ms < 10 ^ (len ms + 1)).
  { split.
    - intros Hd.
      assert (Hitoa : len (strconv_Itoa (value b ms)) ≤ len ms + 1).
      { unfold d, len in Hd. rewrite length_app, length_replicate in Hd.
        unfold len. lia. }
      eapply Z.lt_le_trans; [apply strconv_Itoa_lt_pow; lia|].
      apply Z.pow_le_mono_r; [lia | done].
    - intros Hn10.
      by destruct (pad_Itoa_value (value b ms) (len ms + 1) ltac:(lia) ltac:(lia))
        as (Hdl & _ & _). }
  split.
  { rewrite <- Hdv. apply strconv_ParseUint_digits; [|done|lia].
    intros Hnil. rewrite Hnil in Hdge. unfold len in Hdge. simpl in Hdge. lia. }
  split; [|done]. rewrite <- Hwidth. split.
  - intros Henc. apply (decode_encode ap d (validateAlphabetProvider_distinct ap Hv) Hascii) in Henc.
    rewrite Hl in Henc. lia.
  - intros Hdl.
    assert (Hbase' : encodingBaseToSaveOneChar (len d) = Ok b) by (by rewrite Hdl).
    destruct (encodeTkMD_run ap d b alpha ltac:(lia) Hbase' Hget Hdd) as [Hrun _].
    rewrite Hdv, Hdl in Hrun. replace (len ms + 1 - 1) with (len ms) in Hrun by lia.
    replace (Z.to_nat (len ms)) with (length ms) in Hrun by (unfold len; lia).
    rewrite digits_value in Hrun by done.
    rewrite Hrun.
    + rewrite utf8_ascii; [done|].
      eapply Forall_impl; [|apply symbols_elems, Hms].
      intros c Hc. by eapply (proj1 (list.Forall_forall _ _) (Hascii b alpha Hreq Hget)).
    + eapply Forall_impl; [|exact Hms]. simpl. lia.
Qed.

(** ** The default alphabets *)

Lemma DefaultAlphabetProvider_valid : validateAlphabetProvider DefaultAlphabetProvider = None.
Proof. vm_compute. reflexivity. Qed.

Lemma DefaultAlphabetProvider_ascii : ascii_alphabets DefaultAlphabetProvider.
Proof.
  intros base alpha Hb Hget. unfold requiredBases in Hb.
  repeat (apply elem_of_cons in Hb as [->|Hb]);
    [| | | | | | by apply elem_of_nil in Hb];
    vm_compute in Hget; injection Hget as <-;
    repeat constructor.
Qed.

Lemma DefaultAlphabetProvider_distinct : distinct_alphabets DefaultAlphabetProvider.
Proof. apply validateAlphabetProvider_distinct, DefaultAlphabetProvider_valid. Qed.

(** ** Main results on the codec *)

(** C2, with its second half restricted to the strings the encoder can
    produce.  For an alphabet provider that passes
    [validateAlphabetProvider] and serves single-byte symbols:
    - every decimal digit string [d] of length 3 to 9 is encoded to some
      [t], and [decodeTkMD t] is [d];
    - every symbol string [t] of length 2 to 8 whose characters belong to
      the alphabet selected for its length is decoded to a digit string [d]
      that spells a number [n], and [encodeTkMD d] is [t] exactly when
      [n < 10 ^ (len t + 1)], that is, exactly when [d] has [len t + 1]
      digits. *)
Theorem codec_roundtrip (ap : AlphabetProvider) :
  validateAlphabetProvider ap = None → ascii_alphabets ap →
  (∀ d, 3 ≤ len d ≤ 9 → Forall (λ c, is_digit c = true) d →
     ∃ t, encodeTkMD d ap = Done (Ok t) ∧ decodeTkMD t ap = Ok d)
  ∧ (∀ t b alpha, 2 ≤ len t ≤ 8 →
       encodingBaseToSaveOneChar (len t + 1) = Ok b →
       GetAlphabetForBase ap b = Ok alpha →
       Forall (λ c, c ∈ alpha) t →
       ∃ d n, decodeTkMD t ap = Ok d
              ∧ strconv_ParseUint d 32 = Ok n
              ∧ (encodeTkMD d ap = Done (Ok t) ↔ n < 10 ^ (len t + 1))
              ∧ (len d = len t + 1 ↔ n < 10 ^ (len t + 1))).
Proof.
  intros Hv Hascii. split.
  - intros d Hlen Hd. destruct (encode_total ap d Hv Hlen Hd) as [t Ht].
    exists t. split; [done|].
    by apply (decode_encode ap d (validateAlphabetProvider_distinct ap Hv) Hascii).
  - intros t b alpha. by apply encode_decode.
Qed.

(** [codec_roundtrip] at the default alphabets and the digit string "352". *)
Lemma codec_roundtrip_witness :
  ∃ t, encodeTkMD (str "352") DefaultAlphabetProvider = Done (Ok t)
       ∧ decodeTkMD t DefaultAlphabetProvider = Ok (str "352").
Proof.
  apply (proj1 (codec_roundtrip DefaultAlphabetProvider
                  DefaultAlphabetProvider_valid DefaultAlphabetProvider_ascii)).
  - vm_compute. split; discriminate.
  - repeat constructor.
Defined.

(** C2 as stated fails: every character of "55" belongs to the base-32
    alphabet selected for length 2, [decodeTkMD] turns it into the four
    digits "1023" (31 * 32 + 31), and [encodeTkMD] turns those into "ccl". *)
Lemma codec_roundtrip_counterexample :
  Forall (λ c, c ∈ str "abcdefghijklmnopqrstuvwxyz012345") (str "55")
  ∧ encodingBaseToSaveOneChar (len (str "55") + 1) = Ok 32
  ∧ GetAlphabetForBase DefaultAlphabetProvider 32 = Ok (str "abcdefghijklmnopqrstuvwxyz012345")
  ∧ decodeTkMD (str "55") DefaultAlphabetProvider = Ok (str "1023")
  ∧ encodeTkMD (str "1023") DefaultAlphabetProvider = Done (Ok (str "ccl")).
Proof.
  split; [|vm_compute; repeat split].
  repeat constructor; apply bool_decide_unpack; vm_compute; exact I.
Qed.

(** C9.  With the default alphabet provider, "000", "001", "352" and "00001"
    are encoded to "aa", "ab", "la" and "aaab", and these are decoded back
    to "000", "001", "352" and "00001". *)
Theorem codec_literals :
  encodeTkMD (str "000") DefaultAlphabetProvider = Done (Ok (str "aa"))
  ∧ encodeTkMD (str "001") DefaultAlphabetProvider = Done (Ok (str "ab"))
  ∧ encodeTkMD (str "352") DefaultAlphabetProvider = Done (Ok (str "la"))
  ∧ encodeTkMD (str "00001") DefaultAlphabetProvider = Done (Ok (str "aaab"))
  ∧ decodeTkMD (str "aa") DefaultAlphabetProvider = Ok (str "000")
  ∧ decodeTkMD (str "ab") DefaultAlphabetProvider = Ok (str "001")
  ∧ decodeTkMD (str "la") DefaultAlphabetProvider = Ok (str "352")
  ∧ decodeTkMD (str "aaab") DefaultAlphabetProvider = Ok (str "00001").
Proof. repeat split; vm_compute; reflexivity. Qed.

(** C10.  [encodingBaseToSaveOneChar] returns 32, 22, 18, 16, 15, 14, 14 for
    s = 3, ..., 9; for every s in [3,9] the base it returns satisfies
    base ^ (s - 1) > 10 ^ s - 1 over the integers; and for every s outside
    [3,9] it returns the invalid-size error. *)
Theorem encodingBaseToSaveOneChar_table :
  (encodingBaseToSaveOneChar 3 = Ok 32
   ∧ encodingBaseToSaveOneChar 4 = Ok 22
   ∧ encodingBaseToSaveOneChar 5 = Ok 18
   ∧ encodingBaseToSaveOneChar 6 = Ok 16
   ∧ encodingBaseToSaveOneChar 7 = Ok 15
   ∧ encodingBaseToSaveOneChar 8 = Ok 14
   ∧ encodingBaseToSaveOneChar 9 = Ok 14)
  ∧ (∀ s, 3 ≤ s ≤ 9 →
       ∃ base, encodingBaseToSaveOneChar s = Ok base ∧ base ^ (s - 1) > 10 ^ s - 1)
  ∧ (∀ s, s < 3 ∨ 9 < s → encodingBaseToSaveOneChar s = Err (InvalidSize s)).
Proof.
  split; [repeat split; vm_compute; reflexivity|]. split.
  - intros s Hs. destruct (encodingBaseToSaveOneChar_total s Hs) as [base Hbase].
    exists base. split; [done|].
    destruct (encodingBaseToSaveOneChar_inv s base Hbase) as (_ & _ & _ & Hcap & _). lia.
  - intros s Hs. unfold encodingBaseToSaveOneChar.
    destruct (Z.ltb_spec s 3); [done|]. destruct (Z.gtb_spec s 9); [done|]. lia.
Qed.

(** [encodingBaseToSaveOneChar_table] at s = 6. *)
Lemma encodingBaseToSaveOneChar_table_witness :
  ∃ base, encodingBaseToSaveOneChar 6 = Ok base ∧ base ^ (6 - 1) > 10 ^ 6 - 1.
Proof.
  apply (proj1 (proj2 encodingBaseToSaveOneChar_table) 6). lia.
Defined.

End Codec.

(* ===================================================================== *)
(** * Part VII: validation and the engine                                *)
(* ===================================================================== *)

Module Engine.
Import Go tkengine Notions GoFacts Codec.

(** ** isValidCC *)

Lemma re_search_ccRe_not_bot inp : re_search ccRe false inp = false.
Proof. induction inp as [|c rest IH]; simpl; [done|]. by rewrite IH. Qed.

Lemma isValidCC_runes cc :
  isValidCC cc = true
  ↔ (13 ≤ length (runes cc) ≤ 19)%nat ∧ Forall (λ c, 48 ≤ c ≤ 57) (runes cc).
Proof.
  unfold isValidCC, regexp_Match.
  assert (Hs : ∀ inp, re_search ccRe true inp
    = re_match (Repeat 13 19 (CharClass 48 57)) true inp
        (λ b i, match i with [] => true | _ => false end)).
  { intros inp. destruct inp as [|c rest].
    - reflexivity.
    - cbn [re_search]. rewrite re_search_ccRe_not_bot, orb_false_r.
      unfold ccRe. cbn [re_match andb].
      f_equal. }
  rewrite Hs. by apply re_match_Repeat_class.
Qed.

Lemma isValidCC_spec cc :
  isValidCC cc = true
  ↔ (13 ≤ length cc ≤ 19)%nat ∧ Forall (λ c, is_digit c = true) cc.
Proof.
  rewrite isValidCC_runes. split.
  - intros [Hlen Hd].
    assert (Hsmall : Forall (λ b, byte_to_Z b < 128) cc).
    { apply runes_small. eapply Forall_impl; [|exact Hd]. simpl. lia. }
    rewrite runes_ascii in Hlen, Hd by done.
    rewrite length_fmap in Hlen. split; [done|].
    rewrite Forall_fmap in Hd. eapply Forall_impl; [|exact Hd].
    intros c Hc. by apply is_digit_spec.
  - intros [Hlen Hd].
    assert (Hsmall : Forall (λ b, byte_to_Z b < 128) cc).
    { eapply Forall_impl; [|exact Hd]. intros c Hc. apply is_digit_spec in Hc. lia. }
    rewrite runes_ascii by done. rewrite length_fmap. split; [done|].
    rewrite Forall_fmap. eapply Forall_impl; [|exact Hd].
    intros c Hc. by apply is_digit_spec.
Qed.

(** ** The 6x4 buffer *)

Lemma sixByFour_layout (b : list ascii) :
  6 ≤ len b →
  EncryptCC_sixByFour b = take 6 b ++ replicate 4 zero ++ drop (length b - 4) b
  ∧ DecryptTK_sixByFour b = take 6 b ++ replicate 4 zero ++ drop (length b - 4) b
  ∧ length (take 6 b ++ replicate 4 zero ++ drop (length b - 4) b) = 14%nat.
Proof.
  intros Hb. unfold len in Hb.
  assert (H : Go.append (Go.copy (Go.make 10) (slice_to b 6)) (slice_from b (len b - 4))
              = take 6 b ++ replicate 4 zero ++ drop (length b - 4) b).
  { unfold Go.append, Go.copy, Go.make, slice_to, slice_from, len.
    rewrite length_replicate, length_take.
    replace (Z.to_nat 6) with 6%nat by lia.
    replace (6 `min` length b)%nat with 6%nat by lia.
    replace (Z.to_nat (Z.of_nat (length b) - 4)) with (length b - 4)%nat by lia.
    rewrite take_take. replace (10 `min` 6)%nat with 6%nat by lia.
    rewrite <- app_assoc. do 2 f_equal. }
  split; [exact H|]. split; [exact H|].
  rewrite !length_app, length_take, length_replicate, length_drop. lia.
Qed.

(** ** Tokens as lists *)

Section TokenParts.
Variables (A T D : list ascii) (v : ascii).
Hypothesis HA : length A = 6%nat.
Hypothesis HD : length D = 4%nat.

Local Abbreviation tk := (A ++ [v] ++ T ++ D).

Lemma token_len : len tk = len T + 11.
Proof. unfold len. rewrite !length_app. simpl. lia. Qed.

Lemma token_first6 : slice_to tk 6 = A.
Proof.
  unfold slice_to. replace (Z.to_nat 6) with (length A) by lia.
  by rewrite take_app_length.
Qed.

Lemma token_last4 : slice_from tk (len tk - 4) = D.
Proof.
  unfold slice_from. rewrite token_len.
  replace (Z.to_nat (len T + 11 - 4)) with (length (A ++ [v] ++ T))
    by (rewrite !length_app; unfold len; simpl; lia).
  rewrite !app_assoc. by rewrite drop_app_length.
Qed.

Lemma token_version : at_index tk 6 = v.
Proof.
  unfold at_index. replace (Z.to_nat 6) with (length A) by lia.
  rewrite nth_lookup, lookup_app_r by lia. by rewrite Nat.sub_diag.
Qed.



Lemma token_middle : slice tk 7 (len tk - 4) = T.
Proof.
  unfold slice. rewrite token_len.
  replace (Z.to_nat 7) with (length (A ++ [v])) by (rewrite length_app; simpl; lia).
  rewrite (app_assoc A), drop_app_length.
  replace (Z.to_nat (len T + 11 - 4 - 7)) with (length T) by (unfold len; lia).
  by rewrite take_app_length.
Qed.


End TokenParts.

Lemma card_parts (cc : list ascii) :
  10 ≤ len cc →
  cc = slice cc 0 6 ++ slice cc 6 (len cc - 4) ++ slice_from cc (len cc - 4)
  ∧ length (slice cc 0 6) = 6%nat
  ∧ len (slice cc 6 (len cc - 4)) = len cc - 10
  ∧ length (slice_from cc (len cc - 4)) = 4%nat.
Proof.
  intros Hlen. unfold slice, slice_from, len in *.
  replace (Z.to_nat 0) with 0%nat by lia. rewrite drop_0.
  replace (Z.to_nat (6 - 0)) with 6%nat by lia.
  replace (Z.to_nat 6) with 6%nat by lia.
  replace (Z.to_nat (Z.of_nat (length cc) - 4 - 6)) with (length cc - 10)%nat by lia.
  replace (Z.to_nat (Z.of_nat (length cc) - 4)) with (6 + (length cc - 10))%nat by lia.
  rewrite <- drop_drop, take_drop, take_drop.
  rewrite length_take, length_take, !length_drop. repeat split; lia.
Qed.

(** ** isValidTK and EncryptCC *)

Lemma contains_spec (s : list ascii) (v : ascii) : contains s v = true ↔ v ∈ s.
Proof.
  unfold contains. rewrite existsb_exists. setoid_rewrite <- list_elem_of_In.
  split.
  - intros (el & Hel & Heq). apply bool_decide_eq_true in Heq. by subst.
  - intros Hv. exists v. split; [done | by apply bool_decide_eq_true].
Qed.

Lemma encodeTkMD_length (ap : AlphabetProvider) (c out : list ascii) :
  ascii_alphabets ap →
  encodeTkMD c ap = Done (Ok out) → len out = len c - 1.
Proof.
  intros Hascii Henc.
  destruct (encodeTkMD_inv ap c out Henc) as (b & alpha & Hlen & Hd & Hbase & Hget & Hall & ->).
  destruct (encodingBaseToSaveOneChar_inv _ _ Hbase) as (_ & Hreq & _).
  pose proof (encode_digits_range c b Hlen Hbase Hd) as Hrange.
  rewrite utf8_ascii.
  - unfold len. rewrite symbols_length, digits_length. unfold len in Hlen. lia.
  - eapply Forall_impl; [|apply symbols_elems].
    + intros x Hx. by eapply (proj1 (list.Forall_forall _ _) (Hascii b alpha Hreq Hget)).
    + eapply Forall_impl2; [exact Hrange | exact Hall |]. simpl. lia.
Qed.

Section Validation.
Context {lib : Library}.

Lemma unicode_IsDigit_byte (c : ascii) :
  is_digit c = true → unicode_IsDigit (byte_to_Z c) = true.
Proof.
  intros Hc. apply is_digit_spec in Hc. unfold unicode_IsDigit, MaxLatin1.
  destruct (Z.leb_spec (byte_to_Z c) 255); [|lia].
  apply andb_true_intro. split; apply Z.leb_le; lia.
Qed.

Lemma forallb_IsDigit_digits (s : list ascii) :
  Forall (λ c, is_digit c = true) s → forallb unicode_IsDigit (runes s) = true.
Proof.
  intros Hs. rewrite runes_ascii.
  - apply forallb_forall. intros r Hr. apply list_elem_of_In, list_elem_of_fmap in Hr
      as (c & -> & Hc). apply unicode_IsDigit_byte.
    by apply (proj1 (list.Forall_forall _ _) Hs).
  - eapply Forall_impl; [|exact Hs]. intros c Hc. apply is_digit_spec in Hc. lia.
Qed.

(** Version gating: a token is valid only if its seventh byte is listed. *)
Lemma isValidTK_version (tk : list ascii) (ap : AlphabetProvider) (vers : list ascii) :
  isValidTK tk ap vers = true → at_index tk 6 ∈ vers ∧ 13 ≤ len tk ≤ 19.
Proof.
  unfold isValidTK.
  destruct (Z.ltb_spec (len tk) 13); [done|]. destruct (Z.gtb_spec (len tk) 19); [done|].
  cbn [orb].
  destruct (forallb unicode_IsDigit (runes (slice_to tk 6))); [|done].
  destruct (forallb unicode_IsDigit (runes (slice_from tk (len tk - 4)))); [|done].
  cbn [negb].
  destruct (encodingBaseToSaveOneChar (len tk - 10)) as [base|]; [|done].
  destruct (GetAlphabetForBase ap base) as [alpha|]; [|done].
  destruct (forallb _ (runes (slice tk 7 (len tk - 4)))); [|done]. cbn [negb].
  destruct (contains vers (at_index tk 6)) eqn:Hc; [|done].
  intros _. split; [by apply contains_spec | lia].
Qed.

(** A well-formed token passes validation. *)
Lemma isValidTK_token (ap : AlphabetProvider) (vers A T D alpha : list ascii)
    (v : ascii) (b : Z) :
  length A = 6%nat → length D = 4%nat →
  Forall (λ c, is_digit c = true) A → Forall (λ c, is_digit c = true) D →
  2 ≤ len T ≤ 8 →
  encodingBaseToSaveOneChar (len T + 1) = Ok b →
  GetAlphabetForBase ap b = Ok alpha →
  Forall (λ c, c ∈ alpha) T → Forall is_ascii T →
  v ∈ vers →
  isValidTK (A ++ [v] ++ T ++ D) ap vers = true.
Proof.
  intros HA HD HdA HdD HT Hbase Hget Hin Hascii Hv.
  unfold isValidTK.
  rewrite (token_first6 A T D v HA HD), (token_last4 A T D v HA HD),
          (token_middle A T D v HA HD), (token_version A T D v HA HD).
  rewrite (token_len A T D v HA HD).
  destruct (Z.ltb_spec (len T + 11) 13); [lia|].
  destruct (Z.gtb_spec (len T + 11) 19); [lia|]. cbn [orb].
  rewrite !forallb_IsDigit_digits by done. cbn [negb].
  replace (len T + 11 - 10) with (len T + 1) by lia. rewrite Hbase, Hget.
  rewrite (proj2 (contains_spec vers v) Hv). cbn [negb].
  rewrite runes_ascii by done.
  assert (Hall : forallb (λ el, bool_decide (is_Some (alphaMap_of alpha !! byte_of_rune el)))
                   (byte_to_Z <$> T) = true).
  { apply forallb_forall. intros r Hr.
    apply list_elem_of_In, list_elem_of_fmap in Hr as (c & -> & Hc).
    apply bool_decide_eq_true. unfold byte_of_rune. rewrite byte_of_to_Z.
    apply alphaMap_of_is_Some. by apply (proj1 (list.Forall_forall _ _) Hin). }
  by rewrite Hall.
Qed.

(** What a successful tokenization went through. *)
Lemma EncryptCC_inv (e : engine) (cc tk : list ascii) :
  EncryptCC e cc = Done (Ok tk) →
  ∃ v ekey hkey cipher ciphertext tkmd,
    isValidCC cc = true
    ∧ GetTokenizationVersion (versioner e) = Ok v
    ∧ GetKey (encryptionKeys e) v = Ok ekey
    ∧ GetKey (hmacKeys e) v = Ok hkey
    ∧ ff1_NewCipher 10 (len (hmac_sha256 hkey (EncryptCC_sixByFour cc))) ekey
        (hmac_sha256 hkey (EncryptCC_sixByFour cc)) = Ok cipher
    ∧ Encrypt cipher (slice cc 6 (len cc - 4)) = Ok ciphertext
    ∧ len ciphertext = len cc - 10
    ∧ encodeTkMD ciphertext (alphaProvider e) = Done (Ok tkmd)
    ∧ tk = slice cc 0 6 ++ string_of_byte v ++ tkmd ++ slice_from cc (len cc - 4).
Proof.
  unfold EncryptCC. intros H.
  destruct (isValidCC cc) eqn:Hvalid; [|done]. cbn [negb] in H.
  destruct (GetTokenizationVersion (versioner e)) as [v|] eqn:Hv; [|done].
  destruct (GetKey (encryptionKeys e) v) as [ekey|] eqn:Hek; [|done].
  destruct (GetKey (hmacKeys e) v) as [hkey|] eqn:Hhk; [|done].
  destruct (ff1_NewCipher _ _ _ _) as [cipher|] eqn:Hc; [|done].
  destruct (Encrypt cipher _) as [ciphertext|] eqn:Henc; [|done].
  destruct (Z.eqb_spec (len (slice cc 6 (len cc - 4))) (len ciphertext)) as [Hl|]; [|done].
  cbn [negb] in H.
  destruct (encodeTkMD ciphertext (alphaProvider e)) as [[tkmd|]|] eqn:Htk; [|done|done].
  injection H as <-.
  exists v, ekey, hkey, cipher, ciphertext, tkmd.
  apply isValidCC_spec in Hvalid as Hcc. destruct Hcc as [Hlen _].
  destruct (card_parts cc ltac:(unfold len; lia)) as (_ & _ & Hmd & _).
  repeat (split; [done || lia|]). done.
Qed.

End Validation.

(** ** Main results on the engine *)

Lemma toyLibrary_ff1_inverse : ff1_inverse toyLibrary.
Proof.
  intros radix maxTLen key tweak c x y Hc Henc. simpl in Hc.
  destruct (bool_decide _); [|done]. injection Hc as <-.
  simpl in *. injection Henc as <-. by rewrite reverse_involutive.
Qed.

Section Buffer.
Context {lib : Library}.


(** C3, evaluated on the code.  For the card "4444333322221111" and the
    token "444433aapchc1111" the message handed to the keyed hash is the
    14 bytes "444433", 0, 0, 0, 0, "1111", not the 10 characters
    "4444331111" of the 6x4 fingerprint: [make([]byte, 10)] has length 10,
    [copy] fills its first 6 bytes and [append] adds the last 4 after it.
    Whatever the engine, the two methods use the hash at those 14 bytes
    only. *)
Theorem sixByFour_example :
  let msg := str "444433" ++ replicate 4 zero ++ str "1111" in
  EncryptCC_sixByFour (str "4444333322221111") = msg
  ∧ DecryptTK_sixByFour (str "444433aapchc1111") = msg
  ∧ length msg = 14%nat
  ∧ length (str "444433" ++ str "1111") = 10%nat
  ∧ (∀ e, EncryptCC e (str "4444333322221111")
          = EncryptCC (lib := with_hmac lib (λ hkey _, hmac_sha256 hkey msg)) e
              (str "4444333322221111"))
  ∧ (∀ e, DecryptTK e (str "444433aapchc1111")
          = DecryptTK (lib := with_hmac lib (λ hkey _, hmac_sha256 hkey msg)) e
              (str "444433aapchc1111")).
Proof.
  intros msg.
  assert (Henc : EncryptCC_sixByFour (str "4444333322221111") = msg)
    by (vm_compute; reflexivity).
  assert (Hdec : DecryptTK_sixByFour (str "444433aapchc1111") = msg)
    by (vm_compute; reflexivity).
  split; [done|]. split; [done|]. split; [reflexivity|]. split; [reflexivity|].
  split; intros e.
  - unfold EncryptCC. rewrite Henc. reflexivity.
  - unfold DecryptTK. rewrite Hdec. reflexivity.
Qed.

End Buffer.

Section Rejection.
Context {lib : Library}.

(** C5, without the input "444433332222111".  [EncryptCC] fails with
    [InvalidCC] on every input that holds a byte that is no decimal digit
    or whose length is below 13 or above 19, in particular on
    "A444333322221111" and on "44443333222211111111"; the 15 digits
    "444433332222111" pass the validation. *)
Theorem EncryptCC_rejects (e : engine) :
  (∀ cc, (∃ c, c ∈ cc ∧ is_digit c = false) ∨ len cc < 13 ∨ 19 < len cc →
         EncryptCC e cc = Done (Err InvalidCC))
  ∧ EncryptCC e (str "A444333322221111") = Done (Err InvalidCC)
  ∧ EncryptCC e (str "44443333222211111111") = Done (Err InvalidCC)
  ∧ isValidCC (str "444433332222111") = true.
Proof.
  split; [|repeat split; vm_compute; reflexivity].
  intros cc Hbad. unfold EncryptCC.
  destruct (isValidCC cc) eqn:Hvalid; [|done].
  apply isValidCC_spec in Hvalid as [Hlen Hd]. exfalso.
  destruct Hbad as [(c & Hc & Hnd)|Hbad]; [|unfold len in Hbad; lia].
  apply (proj1 (list.Forall_forall _ _) Hd) in Hc. congruence.
Qed.

End Rejection.

(** [EncryptCC_rejects] at an input of 16 bytes that ends in a letter. *)
Lemma EncryptCC_rejects_witness :
  EncryptCC (lib := toyLibrary) testEngine (str "444433332222111A") = Done (Err InvalidCC).
Proof.
  apply (proj1 (EncryptCC_rejects (lib := toyLibrary) testEngine)).
  left. exists "A"%char. split; [|reflexivity].
  apply (bool_decide_unpack _). vm_compute. exact I.
Defined.

(** C5 as stated fails on its second example: "444433332222111" is 15
    decimal digits, [isValidCC] accepts it and [EncryptCC] returns a token. *)
Lemma EncryptCC_rejects_counterexample :
  isValidCC (str "444433332222111") = true
  ∧ EncryptCC (lib := toyLibrary) testEngine (str "444433332222111")
    = Done (Ok (str "444433adold2111")).
Proof. split; vm_compute; reflexivity. Qed.

Section EngineTheorems.
Context {lib : Library}.



(** C6.  When the 7th byte of [tk] is not among the versions
    [GetDetokenizationVersions] returned, [DecryptTK] fails with
    [InvalidTK] (and so it does when [tk] has no 7th byte). *)
Theorem DecryptTK_version_gate (e : engine) (tk vers : list ascii) :
  GetDetokenizationVersions (versioner e) = Ok vers →
  (∀ c, tk !! 6%nat = Some c → c ∉ vers) →
  DecryptTK e tk = Err InvalidTK.
Proof.
  intros Hvers Hnot. unfold DecryptTK. rewrite Hvers.
  destruct (isValidTK tk (alphaProvider e) vers) eqn:Hvalid; [|done].
  apply isValidTK_version in Hvalid as [Hin Hlen].
  exfalso. apply (Hnot (at_index tk 6)); [|done].
  unfold at_index. rewrite nth_lookup. replace (Z.to_nat 6) with 6%nat by lia.
  destruct (tk !! 6%nat) eqn:H6; [done|].
  apply lookup_ge_None in H6. unfold len in Hlen. lia.
Qed.


End EngineTheorems.





(** [DecryptTK_version_gate] on the token with version 'f' of the test
    cases, the versions being a, b, c, d. *)
Lemma DecryptTK_version_gate_witness :
  DecryptTK (lib := toyLibrary) testEngine (str "444433fapchc1111") = Err InvalidTK.
Proof.
  apply (DecryptTK_version_gate (lib := toyLibrary) testEngine
           (str "444433fapchc1111") (str "abcd")).
  - reflexivity.
  - intros c Hc. vm_compute in Hc. injection Hc as <-.
    apply (bool_decide_unpack _). vm_compute. exact I.
Defined.


(** Outside the hypotheses: a version byte at or above [0x80] takes two
    bytes in the token. *)
Remark EncryptCC_version_above_ascii :
  let e := {| versioner := deterministicVersioner false false (byte_of_Z 0xE9) [byte_of_Z 0xE9];
              encryptionKeys := fixedKeyRepo false (replicate 16 zero);
              hmacKeys := fixedKeyRepo false (replicate 16 zero);
              alphaProvider := DefaultAlphabetProvider |} in
  ∃ tk, EncryptCC (lib := toyLibrary) e (str "4444333322221111") = Done (Ok tk)
        ∧ length tk = 17%nat
        ∧ DecryptTK (lib := toyLibrary) e tk = Err InvalidTK.
Proof. eexists. repeat split; vm_compute; reflexivity. Qed.

End Engine.

(* ===================================================================== *)
(** * Part VIII: construction, errors and edges, the command             *)
(* ===================================================================== *)

(** ** Construction of engines *)

Module Construction.
Import Go tkengine tkengine_test Notions GoFacts Codec.

Lemma size_list_to_set_of_NoDup (l : list ascii) :
  NoDup l → size (list_to_set l : gset ascii) = length l.
Proof.
  induction 1 as [|x l Hx Hnd IH]; [done|].
  cbn [list_to_set foldr length].
  rewrite size_union.
  - rewrite size_singleton, IH. done.
  - apply disjoint_singleton_l. rewrite (elem_of_list_to_set (C := gset ascii)). exact Hx.
Qed.

Lemma validateAlphabetProvider_loop_complete (ap : AlphabetProvider) (bases : list Z) :
  (∀ base, base ∈ bases →
     ∃ alpha, GetAlphabetForBase ap base = Ok alpha ∧ len alpha = base ∧ NoDup alpha) →
  validateAlphabetProvider_loop ap bases = None.
Proof.
  induction bases as [|i rest IH]; intros H; [done|].
  cbn [validateAlphabetProvider_loop].
  destruct (H i) as (alpha & Hget & Hlen & Hnd); [apply list_elem_of_here|].
  rewrite Hget.
  replace (len alpha =? i) with true by (symmetry; apply Z.eqb_eq; exact Hlen).
  cbn [negb].
  rewrite uniqueSymbols_fill_spec.
  rewrite (right_id_L ∅ (∪)).
  rewrite size_list_to_set_of_NoDup by exact Hnd.
  unfold len. rewrite Z.eqb_refl. cbn [negb].
  apply IH. intros base Hb. apply H. apply list_elem_of_further. exact Hb.
Qed.

Lemma validateAlphabetProvider_iff (ap : AlphabetProvider) :
  validateAlphabetProvider ap = None
  ↔ ∀ base, base ∈ requiredBases →
      ∃ alpha, GetAlphabetForBase ap base = Ok alpha ∧ len alpha = base ∧ NoDup alpha.
Proof.
  split.
  - apply validateAlphabetProvider_ok.
  - apply validateAlphabetProvider_loop_complete.
Qed.

(** X1.  [NewEngine] returns an engine exactly when the provider serves,
    for each of the bases 14, 15, 16, 18, 22 and 32, an alphabet with as
    many symbols as the base and no symbol twice; the engine then holds
    the four providers it was given.  Otherwise it returns an error. *)
Theorem NewEngine_accepts_iff (versioner : KeyVersioner) (encryptionKeys hmacKeys : KeyRepo)
    (ap : AlphabetProvider) :
  let valid := ∀ base, base ∈ requiredBases →
    ∃ alpha, GetAlphabetForBase ap base = Ok alpha ∧ len alpha = base ∧ NoDup alpha in
  (valid ↔
     NewEngine versioner encryptionKeys hmacKeys ap
     = Ok {| tkengine.versioner := versioner; tkengine.encryptionKeys := encryptionKeys;
             tkengine.hmacKeys := hmacKeys; alphaProvider := ap |})
  ∧ (valid ∨ ∃ err, NewEngine versioner encryptionKeys hmacKeys ap = Err err).
Proof.
  cbv zeta. unfold NewEngine.
  destruct (validateAlphabetProvider ap) as [err|] eqn:Hv.
  - split.
    + split; [|discriminate].
      intros H. apply validateAlphabetProvider_iff in H. congruence.
    + right. eexists. reflexivity.
  - pose proof (proj1 (validateAlphabetProvider_iff ap) Hv) as Hok.
    split; [|left; exact Hok].
    split; [reflexivity|intros _; exact Hok].
Qed.


(** X3.  [DefaultAlphabetProvider] serves the six bases the engine uses
    and no other; the alphabet of a base is made of the first symbols of
    the base-32 alphabet, as many as the base. *)
Theorem DefaultAlphabetProvider_table (base : Z) :
  (base ∈ requiredBases →
   GetAlphabetForBase DefaultAlphabetProvider base
   = Ok (take (Z.to_nat base) (str "abcdefghijklmnopqrstuvwxyz012345")))
  ∧ (base ∉ requiredBases →
     GetAlphabetForBase DefaultAlphabetProvider base = Err (NoAlphabet base)).
Proof.
  split.
  - intros H. unfold requiredBases in H.
    repeat (apply list.elem_of_cons in H as [->|H]; [reflexivity|]).
    by apply list.elem_of_nil in H.
  - intros H. cbn [GetAlphabetForBase DefaultAlphabetProvider].
    unfold DefaultAlphabetProvider_GetAlphabetForBase. cbv zeta.
    cbn [list_to_map foldr fst snd uncurry].
    rewrite !lookup_insert_ne, lookup_empty; [done|..];
      intros <-; apply H; unfold requiredBases;
      repeat ((by apply list_elem_of_here) || apply list_elem_of_further).
Qed.

End Construction.

(** ** Errors and edges of the base codec *)

Module CodecEdges.
Import Go tkengine tkengine_test Notions GoFacts Codec.

Lemma strconv_ParseUint_err (s : list ascii) (bitSize : Z) (e : error) :
  strconv_ParseUint s bitSize = Err e → e = NumError s.
Proof.
  unfold strconv_ParseUint. destruct s as [|c s]; [congruence|].
  destruct (ParseUint_loop _ _ _); congruence.
Qed.

Lemma strconv_ParseUint_nondigit (s : list ascii) :
  (∃ x, x ∈ s ∧ is_digit x = false) → strconv_ParseUint s 32 = Err (NumError s).
Proof.
  intros (x & Hx & Hnd).
  destruct (strconv_ParseUint s 32) as [n|e] eqn:Hp.
  - apply strconv_ParseUint_inv in Hp as [Hd _].
    rewrite list.Forall_forall in Hd. rewrite (Hd x Hx) in Hnd. discriminate.
  - by rewrite (strconv_ParseUint_err _ _ _ Hp).
Qed.

(** X4.  [encodeTkMD] returns the length error for an input shorter than
    3 or longer than 9 bytes, and the [strconv] error for an input of 3 to
    9 bytes one of which is no decimal digit; it consults no alphabet in
    either case. *)
Theorem encodeTkMD_rejects (ap : AlphabetProvider) (c : list ascii) :
  (len c < 3 ∨ 9 < len c → encodeTkMD c ap = Done (Err (CiphertextLen (len c))))
  ∧ (3 ≤ len c ≤ 9 → (∃ x, x ∈ c ∧ is_digit x = false) →
     encodeTkMD c ap = Done (Err (NumError c))).
Proof.
  unfold encodeTkMD. split.
  - intros H.
    destruct (Z.ltb_spec (len c) 3); [done|]. destruct (Z.gtb_spec (len c) 9); [done|]. lia.
  - intros H Hx.
    destruct (Z.ltb_spec (len c) 3); [lia|]. destruct (Z.gtb_spec (len c) 9); [lia|].
    cbn [orb]. by rewrite strconv_ParseUint_nondigit.
Qed.

(** X5.  With a provider that passes [validateAlphabetProvider] and serves
    single-byte symbols, [encodeTkMD] succeeds on every string of 3 to 9
    decimal digits; the result is one byte shorter than the input and
    every byte of it is a symbol of the alphabet of the base. *)
Theorem encodeTkMD_in_alphabet (ap : AlphabetProvider) (c : list ascii) :
  validateAlphabetProvider ap = None → ascii_alphabets ap →
  3 ≤ len c ≤ 9 → Forall (λ x, is_digit x = true) c →
  ∃ b alpha t,
    encodingBaseToSaveOneChar (len c) = Ok b
    ∧ GetAlphabetForBase ap b = Ok alpha
    ∧ encodeTkMD c ap = Done (Ok t)
    ∧ len t = len c - 1
    ∧ Forall (λ x, x ∈ alpha) t.
Proof.
  intros Hv Hascii Hlen Hd.
  destruct (encode_total ap c Hv Hlen Hd) as [t Ht].
  destruct (encodeTkMD_inv ap c t Ht) as (b & alpha & _ & _ & Hbase & Hget & Hall & Hout).
  destruct (encodingBaseToSaveOneChar_inv _ _ Hbase) as (_ & Hreq & _).
  specialize (Hascii b alpha Hreq Hget).
  pose proof (encode_digits_range c b Hlen Hbase Hd) as Hrange.
  assert (Hin : Forall (λ m, 0 ≤ m < len alpha)
                  (digits b (Z.to_nat (len c - 1)) (value 10 (digit_vals c)))).
  { eapply Forall_impl2; [exact Hrange | exact Hall |]. simpl. lia. }
  pose proof (symbols_elems alpha _ Hin) as Hel.
  rewrite utf8_ascii in Hout.
  2:{ eapply Forall_impl; [|exact Hel].
      intros x Hx. by eapply (proj1 (list.Forall_forall _ _) Hascii). }
  exists b, alpha, t. subst t. repeat (split; [done|]). split; [|done].
  unfold len in *. rewrite symbols_length, digits_length. lia.
Qed.

Lemma encodeTkMD_in_alphabet_witness :
  ∃ b alpha t,
    encodingBaseToSaveOneChar (len (str "352")) = Ok b
    ∧ GetAlphabetForBase DefaultAlphabetProvider b = Ok alpha
    ∧ encodeTkMD (str "352") DefaultAlphabetProvider = Done (Ok t)
    ∧ len t = len (str "352") - 1
    ∧ Forall (λ x, x ∈ alpha) t.
Proof.
  apply (encodeTkMD_in_alphabet DefaultAlphabetProvider (str "352")).
  - exact DefaultAlphabetProvider_valid.
  - exact DefaultAlphabetProvider_ascii.
  - vm_compute. split; discriminate.
  - repeat constructor.
Defined.

Lemma digits_small (b : Z) (k : nat) (n : Z) :
  1 < b → 0 ≤ n < b → n ∈ digits b (S k) n.
Proof.
  intros Hb Hn. induction k as [|k IH].
  - cbn [digits]. change (b ^ Z.of_nat 0) with 1. rewrite Z.div_1_r.
    apply list_elem_of_here.
  - change (digits b (S (S k)) n)
      with (n / b ^ Z.of_nat (S k) :: digits b (S k) (n mod b ^ Z.of_nat (S k))).
    assert (Hp : b ≤ b ^ Z.of_nat (S k)).
    { rewrite <- (Z.pow_1_r b) at 1. apply Z.pow_le_mono_r; lia. }
    rewrite Z.mod_small by lia.
    apply list_elem_of_further. exact IH.
Qed.

Lemma encodeTkMD_Panic_inv (ap : AlphabetProvider) (d : list ascii) (p : panic) :
  encodeTkMD d ap = Panic p →
  ∃ b alpha, 3 ≤ len d ≤ 9
    ∧ encodingBaseToSaveOneChar (len d) = Ok b
    ∧ GetAlphabetForBase ap b = Ok alpha
    ∧ len alpha < b.
Proof.
  intros Hpanic. pose proof Hpanic as H0. unfold encodeTkMD in H0.
  destruct (Z.ltb_spec (len d) 3); [done|]. destruct (Z.gtb_spec (len d) 9); [done|].
  cbn [orb] in H0.
  destruct (strconv_ParseUint d 32) as [n|] eqn:Hparse; [|done].
  destruct (encodingBaseToSaveOneChar (len d)) as [b|] eqn:Hbase; [|done].
  destruct (GetAlphabetForBase ap b) as [alpha|] eqn:Hget; [|done].
  apply strconv_ParseUint_inv in Hparse as [Hd _].
  exists b, alpha. split; [lia|]. split; [done|]. split; [done|].
  destruct (Z.lt_ge_cases (len alpha) b) as [|Hge]; [done|exfalso].
  destruct (encodeTkMD_run ap d b alpha ltac:(lia) Hbase Hget Hd) as [Hrun _].
  rewrite Hrun in Hpanic; [done|].
  eapply Forall_impl; [|apply (encode_digits_range d b ltac:(lia) Hbase Hd)]. simpl. lia.
Qed.

Lemma encodeTkMD_validated_Done (ap : AlphabetProvider) (d : list ascii) :
  validateAlphabetProvider ap = None → ∃ r, encodeTkMD d ap = Done r.
Proof.
  intros Hv. destruct (encodeTkMD d ap) as [r|p] eqn:H; [by exists r|exfalso].
  destruct (encodeTkMD_Panic_inv ap d p H) as (b & alpha & _ & Hbase & Hget & Hshort).
  destruct (encodingBaseToSaveOneChar_inv _ _ Hbase) as (_ & Hreq & _).
  destruct (validateAlphabetProvider_ok ap Hv b Hreq) as (alpha' & Hget' & Hsz & _).
  assert (alpha' = alpha) as -> by congruence. lia.
Qed.

(** X6.  For a length [s] from 3 to 9 whose base is [b]: some input of
    length [s] makes [encodeTkMD] panic exactly when the alphabet the
    provider serves for [b] has fewer than [b] symbols (the index
    [alpha[m]] then runs out of range). *)
Theorem encodeTkMD_panics_iff (ap : AlphabetProvider) (s b : Z) (alpha : list ascii) :
  encodingBaseToSaveOneChar s = Ok b →
  GetAlphabetForBase ap b = Ok alpha →
  (∃ d p, len d = s ∧ encodeTkMD d ap = Panic p) ↔ len alpha < b.
Proof.
  intros Hbase Hget.
  destruct (encodingBaseToSaveOneChar_inv _ _ Hbase) as (Hs & Hreq & Hb1 & _).
  split.
  - intros (d & p & Hl & Hpanic). subst s.
    destruct (encodeTkMD_Panic_inv ap d p Hpanic) as (b' & alpha' & _ & Hbase' & Hget' & Hshort).
    assert (b' = b) as -> by congruence. assert (alpha' = alpha) as -> by congruence. done.
  - intros Hshort.
    pose proof (len_nonneg alpha) as Hn0.
    assert (Hb32 : b ≤ 32).
    { unfold requiredBases in Hreq.
      repeat (apply list.elem_of_cons in Hreq as [->|Hreq]; [lia|]).
      by apply list.elem_of_nil in Hreq. }
    assert (H10 : 10 ^ 3 ≤ 10 ^ s) by (apply Z.pow_le_mono_r; lia).
    destruct (pad_Itoa_value (len alpha) s) as (Hl & Hd & Hval); [lia|lia|].
    set (d := replicate (Z.to_nat (s - len (strconv_Itoa (len alpha)))) (byte_of_Z 48)
              ++ strconv_Itoa (len alpha)) in *.
    rewrite <- Hl in Hs, Hbase.
    destruct (encodeTkMD_run ap d b alpha Hs Hbase Hget Hd) as [_ Hrun].
    destruct Hrun as [p Hp].
    + rewrite Hval. intros Hall.
      replace (Z.to_nat (len d - 1)) with (S (Z.to_nat (len d - 2))) in Hall by lia.
      rewrite list.Forall_forall in Hall.
      specialize (Hall (len alpha) (digits_small b _ (len alpha) Hb1 ltac:(lia))).
      simpl in Hall. lia.
    + exists d, p. done.
Qed.

Lemma encodeTkMD_panics_iff_witness :
  ∃ d p, len d = 8 ∧ encodeTkMD d wrongSizeBase14AlphaProvider = Panic p.
Proof.
  apply (encodeTkMD_panics_iff wrongSizeBase14AlphaProvider 8 14 (str "abcdefghijklm")).
  - reflexivity.
  - reflexivity.
  - vm_compute. reflexivity.
Defined.

Lemma decodeTkMD_loop_total (mp : gmap ascii Z) (b L : Z) (t : list ascii) : ∀ i acc,
  0 ≤ acc < 2 ^ 32 →
  Forall (λ c, is_Some (mp !! c)) t →
  ∃ n, decodeTkMD_loop mp b L i t acc = Ok n ∧ 0 ≤ n < 2 ^ 32.
Proof.
  induction t as [|c t IH]; intros i acc Hacc Hall.
  - exists acc. done.
  - apply list.Forall_cons in Hall as [[m Hm] Hall].
    cbn [decodeTkMD_loop]. rewrite Hm.
    apply IH; [|done]. unfold to_uint32. apply Z.mod_pos_bound. lia.
Qed.

Lemma decodeTkMD_loop_unknown (mp : gmap ascii Z) (b L : Z) (pre : list ascii) c post :
  ∀ i acc,
  Forall (λ x, is_Some (mp !! x)) pre → mp !! c = None →
  decodeTkMD_loop mp b L i (pre ++ c :: post) acc = Err (UnknownSymbol c).
Proof.
  induction pre as [|x pre IH]; intros i acc Hall Hc.
  - cbn [app decodeTkMD_loop]. by rewrite Hc.
  - apply list.Forall_cons in Hall as [[m Hm] Hall].
    cbn [app decodeTkMD_loop]. rewrite Hm. by apply IH.
Qed.

(** X7.  The outcomes of [decodeTkMD]: the length error for an input
    shorter than 2 or longer than 8 bytes; otherwise, with the alphabet of
    the base at hand, the unknown-symbol error naming the first byte that
    is not in the alphabet; otherwise a string of decimal digits, at least
    one byte longer than the input. *)
Theorem decodeTkMD_outcomes (ap : AlphabetProvider) (t : list ascii) :
  (len t < 2 ∨ 8 < len t → decodeTkMD t ap = Err (TkMDLen (len t)))
  ∧ (∀ b alpha, 2 ≤ len t ≤ 8 →
       encodingBaseToSaveOneChar (len t + 1) = Ok b →
       GetAlphabetForBase ap b = Ok alpha →
       (∀ pre c post, t = pre ++ c :: post → Forall (λ x, x ∈ alpha) pre → c ∉ alpha →
          decodeTkMD t ap = Err (UnknownSymbol c))
       ∧ (Forall (λ x, x ∈ alpha) t →
          ∃ d, decodeTkMD t ap = Ok d
               ∧ Forall (λ x, is_digit x = true) d
               ∧ len t + 1 ≤ len d)).
Proof.
  unfold decodeTkMD. split.
  - intros H.
    destruct (Z.ltb_spec (len t) 2); [done|]. destruct (Z.gtb_spec (len t) 8); [done|]. lia.
  - intros b alpha Hlen Hbase Hget.
    destruct (Z.ltb_spec (len t) 2); [lia|]. destruct (Z.gtb_spec (len t) 8); [lia|].
    cbn [orb]. rewrite Hbase, Hget. split.
    + intros pre c post -> Hpre Hc.
      rewrite decodeTkMD_loop_unknown; [done| |].
      * eapply Forall_impl; [|exact Hpre]. intros x Hx. by apply alphaMap_of_is_Some.
      * apply eq_None_not_Some. by rewrite alphaMap_of_is_Some.
    + intros Hall.
      destruct (decodeTkMD_loop_total (alphaMap_of alpha) b (len t) t 0 0) as (n & -> & Hn);
        [lia| |].
      { eapply Forall_impl; [|exact Hall]. intros x Hx. by apply alphaMap_of_is_Some. }
      eexists. split; [reflexivity|].
      destruct (pad_Itoa_any n (len t + 1)) as (Hd & _ & Hl); [lia|].
      split; [exact Hd | exact Hl].
Qed.

End CodecEdges.

(** ** Tokens: validation, format, both round trips *)

Module Tokens.
Import Go tkengine tkengine_test Notions FurtherNotions GoFacts Codec Engine CodecEdges.

Lemma slice_to_take {A} (s : list A) : slice_to s 6 = take 6 s.
Proof. reflexivity. Qed.

Lemma slice_0_6_take {A} (s : list A) : slice s 0 6 = take 6 s.
Proof. reflexivity. Qed.

Lemma slice_from_drop {A} (s : list A) :
  slice_from s (len s - 4) = drop (length s - 4) s.
Proof. unfold slice_from, len. f_equal. lia. Qed.

Lemma slice_md_tail {A} (s : list A) :
  11 ≤ len s → slice_from (slice s 6 (len s - 4)) 1 = slice s 7 (len s - 4).
Proof.
  intros Hl. unfold slice_from, slice.
  replace (Z.to_nat 1) with 1%nat by lia.
  rewrite skipn_firstn_comm, drop_drop.
  replace (Z.to_nat (len s - 4 - 6) - 1)%nat with (Z.to_nat (len s - 4 - 7)) by lia.
  by replace (Z.to_nat 6 + 1)%nat with (Z.to_nat 7) by lia.
Qed.

Lemma card_shape (cc : list ascii) :
  10 ≤ len cc →
  cc = take 6 cc ++ slice cc 6 (len cc - 4) ++ drop (length cc - 4) cc
  ∧ length (take 6 cc) = 6%nat
  ∧ len (slice cc 6 (len cc - 4)) = len cc - 10
  ∧ length (drop (length cc - 4) cc) = 4%nat.
Proof.
  intros H. destruct (card_parts cc H) as (H1 & H2 & H3 & H4).
  rewrite slice_0_6_take in H1, H2. rewrite slice_from_drop in H1, H4. done.
Qed.

Lemma plain_parts (A P D : list ascii) :
  length A = 6%nat → length D = 4%nat →
  take 6 (A ++ P ++ D) = A
  ∧ drop (length (A ++ P ++ D) - 4) (A ++ P ++ D) = D
  ∧ slice (A ++ P ++ D) 6 (len (A ++ P ++ D) - 4) = P
  ∧ len (A ++ P ++ D) = len P + 10.
Proof.
  intros HA HD.
  assert (Hl : length (A ++ P ++ D) = (length P + 10)%nat)
    by (rewrite !length_app, HA, HD; lia).
  split; [|split; [|split]].
  - rewrite <- HA. by rewrite take_app_length.
  - rewrite Hl, app_assoc.
    replace (length P + 10 - 4)%nat with (length (A ++ P)) by (rewrite length_app, HA; lia).
    by rewrite drop_app_length.
  - unfold slice, len. rewrite Hl.
    replace (Z.to_nat 6) with (length A) by (rewrite HA; lia).
    rewrite drop_app_length.
    replace (Z.to_nat (Z.of_nat (length P + 10) - 4 - 6)) with (length P) by lia.
    by rewrite take_app_length.
  - unfold len. rewrite Hl. lia.
Qed.

Lemma token_split (tk : list ascii) :
  11 ≤ len tk →
  tk = take 6 tk ++ [at_index tk 6] ++ slice tk 7 (len tk - 4) ++ drop (length tk - 4) tk.
Proof.
  intros Hl. unfold len in Hl.
  rewrite <- (take_drop 6 tk) at 1. f_equal.
  assert (H6 : tk !! 6%nat = Some (at_index tk 6)).
  { unfold at_index. replace (Z.to_nat 6) with 6%nat by lia. rewrite nth_lookup.
    destruct (tk !! 6%nat) eqn:E; [done|]. apply lookup_ge_None in E. lia. }
  rewrite (drop_S _ _ _ H6). cbn [app]. f_equal.
  unfold slice, len. replace (Z.to_nat 7) with 7%nat by lia.
  rewrite <- (take_drop (Z.to_nat (Z.of_nat (length tk) - 4 - 7)) (drop 7 tk)) at 1.
  f_equal. rewrite drop_drop. f_equal. lia.
Qed.

Section TokenTheorems.
Context {lib : Library}.

(** X8.  [isValidCC] accepts exactly the strings of 13 to 19 bytes that are
    all decimal digits: the pattern is matched rune by rune, and no rune
    of a multi-byte character lies between '0' and '9'. *)
Theorem isValidCC_digit_strings (cc : list ascii) :
  isValidCC cc = true ↔ 13 ≤ len cc ≤ 19 ∧ Forall (λ c, is_digit c = true) cc.
Proof.
  rewrite isValidCC_spec. unfold len. split; intros [Hl Hd]; (split; [lia|done]).
Qed.

Lemma unicode_IsDigit_is_digit (c : ascii) :
  unicode_IsDigit (byte_to_Z c) = is_digit c.
Proof.
  unfold unicode_IsDigit, MaxLatin1, is_digit.
  pose proof (byte_to_Z_range c).
  destruct (Z.leb_spec (byte_to_Z c) 255); [done|lia].
Qed.

Lemma forallb_IsDigit_ascii (s : list ascii) :
  Forall is_ascii s →
  forallb unicode_IsDigit (runes s) = true ↔ Forall (λ c, is_digit c = true) s.
Proof.
  intros Hs. rewrite runes_ascii by done. clear Hs.
  induction s as [|c s IH]; [done|].
  cbn [fmap list_fmap forallb]. rewrite andb_true_iff, list.Forall_cons, IH.
  by rewrite unicode_IsDigit_is_digit.
Qed.

Lemma forallb_alphaMap_ascii (alpha s : list ascii) :
  Forall is_ascii s →
  forallb (λ el, bool_decide (is_Some (alphaMap_of alpha !! byte_of_rune el))) (runes s) = true
  ↔ Forall (λ c, c ∈ alpha) s.
Proof.
  intros Hs. rewrite runes_ascii by done. clear Hs.
  induction s as [|c s IH]; [done|].
  cbn [fmap list_fmap forallb]. rewrite andb_true_iff, list.Forall_cons, IH.
  unfold byte_of_rune. rewrite byte_of_to_Z, bool_decide_eq_true, alphaMap_of_is_Some. done.
Qed.

Lemma isValidTK_ascii (tk : list ascii) (ap : AlphabetProvider) (vers : list ascii) :
  Forall is_ascii tk →
  isValidTK tk ap vers = true
  ↔ 13 ≤ len tk ≤ 19
    ∧ Forall (λ c, is_digit c = true) (take 6 tk)
    ∧ Forall (λ c, is_digit c = true) (drop (length tk - 4) tk)
    ∧ (∃ b alpha, encodingBaseToSaveOneChar (len tk - 10) = Ok b
                  ∧ GetAlphabetForBase ap b = Ok alpha
                  ∧ Forall (λ c, c ∈ alpha) (slice tk 7 (len tk - 4)))
    ∧ at_index tk 6 ∈ vers.
Proof.
  intros Hascii. unfold isValidTK.
  rewrite slice_to_take, slice_from_drop.
  pose proof (forallb_IsDigit_ascii (take 6 tk) (Forall_take _ _ _ Hascii)) as H6.
  pose proof (forallb_IsDigit_ascii (drop (length tk - 4) tk) (Forall_drop _ _ _ Hascii)) as H4.
  assert (Hmid : Forall is_ascii (slice tk 7 (len tk - 4)))
    by (unfold slice; apply Forall_take, Forall_drop, Hascii).
  destruct (Z.ltb_spec (len tk) 13); [split; [done|lia]|].
  destruct (Z.gtb_spec (len tk) 19); [split; [done|lia]|].
  cbn [orb].
  destruct (forallb unicode_IsDigit (runes (take 6 tk))).
  2:{ cbn [negb]. split; [done|]. intros (_ & Hd & _). by apply H6 in Hd. }
  destruct (forallb unicode_IsDigit (runes (drop (length tk - 4) tk))).
  2:{ cbn [negb]. split; [done|]. intros (_ & _ & Hd & _). by apply H4 in Hd. }
  cbn [negb].
  destruct (encodingBaseToSaveOneChar (len tk - 10)) as [base|err] eqn:Hbase.
  2:{ split; [done|]. intros (_ & _ & _ & (b & alpha & Hb & _) & _). done. }
  destruct (GetAlphabetForBase ap base) as [alpha|err] eqn:Hget.
  2:{ split; [done|]. intros (_ & _ & _ & (b & alpha & Hb & Hg & _) & _). congruence. }
  pose proof (forallb_alphaMap_ascii alpha _ Hmid) as Hm.
  destruct (forallb _ (runes (slice tk 7 (len tk - 4)))).
  2:{ cbn [negb]. split; [done|].
      intros (_ & _ & _ & (b & alpha' & Hb & Hg & Hall) & _).
      assert (alpha' = alpha) as -> by congruence. by apply Hm in Hall. }
  cbn [negb].
  destruct (contains vers (at_index tk 6)) eqn:Hc.
  - cbn [negb]. split; [intros _|done].
    split; [lia|]. split; [by apply H6|]. split; [by apply H4|].
    split; [|by apply contains_spec]. exists base, alpha. split; [done|]. split; [done|].
    by apply Hm.
  - cbn [negb]. split; [done|]. intros (_ & _ & _ & _ & Hin).
    apply contains_spec in Hin. congruence.
Qed.

(** X9.  For a token of ASCII bytes, [isValidTK] holds exactly when the
    token has 13 to 19 bytes, its first 6 and last 4 bytes are decimal
    digits, every byte between the 7th and the last 4 is a symbol of the
    alphabet for its length, and its 7th byte is one of the versions
    given.  [decodeTkMD] then succeeds on the bytes [DecryptTK] hands it
    and gives decimal digits. *)
Theorem isValidTK_accepts (tk : list ascii) (ap : AlphabetProvider) (vers : list ascii) :
  Forall is_ascii tk →
  (isValidTK tk ap vers = true
   ↔ 13 ≤ len tk ≤ 19
     ∧ Forall (λ c, is_digit c = true) (take 6 tk)
     ∧ Forall (λ c, is_digit c = true) (drop (length tk - 4) tk)
     ∧ (∃ b alpha, encodingBaseToSaveOneChar (len tk - 10) = Ok b
                   ∧ GetAlphabetForBase ap b = Ok alpha
                   ∧ Forall (λ c, c ∈ alpha) (slice tk 7 (len tk - 4)))
     ∧ at_index tk 6 ∈ vers)
  ∧ (isValidTK tk ap vers = true →
     ∃ d, decodeTkMD (slice_from (slice tk 6 (len tk - 4)) 1) ap = Ok d
          ∧ Forall (λ c, is_digit c = true) d
          ∧ len tk - 10 ≤ len d).
Proof.
  intros Hascii. split; [by apply isValidTK_ascii|].
  intros Hvalid. apply isValidTK_ascii in Hvalid as (Hlen & _ & _ & (b & alpha & Hbase & Hget & Hall) & _);
    [|done].
  rewrite slice_md_tail by lia.
  assert (Hl : len (slice tk 7 (len tk - 4)) = len tk - 11).
  { unfold slice, len in *. rewrite length_take, length_drop. lia. }
  unfold decodeTkMD. rewrite Hl.
  destruct (Z.ltb_spec (len tk - 11) 2); [lia|]. destruct (Z.gtb_spec (len tk - 11) 8); [lia|].
  cbn [orb]. replace (len tk - 11 + 1) with (len tk - 10) by lia. rewrite Hbase, Hget.
  destruct (decodeTkMD_loop_total (alphaMap_of alpha) b (len tk - 11)
              (slice tk 7 (len tk - 4)) 0 0) as (n & -> & Hn); [lia| |].
  { eapply Forall_impl; [|exact Hall]. intros x Hx. by apply alphaMap_of_is_Some. }
  eexists. split; [reflexivity|].
  destruct (pad_Itoa_any n (len tk - 10)) as (Hd & _ & Hle); [lia|].
  split; [exact Hd | exact Hle].
Qed.

(** What a successful detokenization went through. *)
Lemma DecryptTK_inv (e : engine) (tk cc : list ascii) :
  DecryptTK e tk = Ok cc →
  ∃ vers ekey hkey decmd cipher plaintext,
    GetDetokenizationVersions (versioner e) = Ok vers
    ∧ isValidTK tk (alphaProvider e) vers = true
    ∧ GetKey (encryptionKeys e) (at_index tk 6) = Ok ekey
    ∧ GetKey (hmacKeys e) (at_index tk 6) = Ok hkey
    ∧ decodeTkMD (slice_from (slice tk 6 (len tk - 4)) 1) (alphaProvider e) = Ok decmd
    ∧ ff1_NewCipher 10 (len (hmac_sha256 hkey (DecryptTK_sixByFour tk))) ekey
        (hmac_sha256 hkey (DecryptTK_sixByFour tk)) = Ok cipher
    ∧ Decrypt cipher decmd = Ok plaintext
    ∧ len plaintext = len (slice tk 6 (len tk - 4))
    ∧ cc = slice tk 0 6 ++ plaintext ++ slice_from tk (len tk - 4).
Proof.
  unfold DecryptTK. intros H.
  destruct (GetDetokenizationVersions (versioner e)) as [vers|] eqn:Hvers; [|done].
  destruct (isValidTK tk (alphaProvider e) vers) eqn:Hvalid; [|done]. cbn [negb] in H.
  destruct (GetKey (encryptionKeys e) (at_index tk 6)) as [ekey|] eqn:Hek; [|done].
  destruct (GetKey (hmacKeys e) (at_index tk 6)) as [hkey|] eqn:Hhk; [|done].
  destruct (decodeTkMD _ _) as [decmd|] eqn:Hdec; [|done].
  destruct (ff1_NewCipher _ _ _ _) as [cipher|] eqn:Hc; [|done].
  destruct (Decrypt cipher decmd) as [plaintext|] eqn:Hpt; [|done].
  destruct (Z.eqb_spec (len (slice tk 6 (len tk - 4))) (len plaintext)) as [Hl|]; [|done].
  cbn [negb] in H. injection H as <-.
  exists vers, ekey, hkey, decmd, cipher, plaintext. done.
Qed.

(** X10.  When [DecryptTK] succeeds, the result has the length of the
    token, which is from 13 to 19, the same first 6 and last 4 bytes, and
    the 7th byte of the token is one of the detokenization versions. *)
Theorem DecryptTK_shape (e : engine) (tk cc : list ascii) :
  DecryptTK e tk = Ok cc →
  length cc = length tk
  ∧ 13 ≤ len tk ≤ 19
  ∧ take 6 cc = take 6 tk
  ∧ drop (length cc - 4) cc = drop (length tk - 4) tk
  ∧ ∃ vers, GetDetokenizationVersions (versioner e) = Ok vers ∧ at_index tk 6 ∈ vers.
Proof.
  intros H.
  destruct (DecryptTK_inv e tk cc H)
    as (vers & ekey & hkey & decmd & cipher & plaintext
        & Hvers & Hvalid & _ & _ & _ & _ & _ & Hpl & ->).
  apply isValidTK_version in Hvalid as [Hin Hlen].
  destruct (card_shape tk ltac:(lia)) as (_ & H6 & Hmd & H4).
  rewrite slice_0_6_take, slice_from_drop.
  assert (Hlencc : length (take 6 tk ++ plaintext ++ drop (length tk - 4) tk) = length tk).
  { rewrite !length_app, H6, H4. unfold len in *. lia. }
  split; [exact Hlencc|]. split; [lia|]. split; [|split].
  - rewrite <- H6 at 1. by rewrite take_app_length.
  - rewrite Hlencc. rewrite !app_assoc.
    replace (length tk - 4)%nat with (length (take 6 tk ++ plaintext)) at 1.
    + by rewrite drop_app_length.
    + rewrite length_app, H6. unfold len in *. lia.
  - exists vers. done.
Qed.

(** X11.  With alphabets that pass [validateAlphabetProvider], as those of
    every engine [NewEngine] or [NewEngineWithDefaultAlphabet] returns,
    [EncryptCC] never panics: it returns a token or an error, whatever
    the providers and the cipher answer.  (Its slices are taken after the
    validation of the card; the index into the alphabet and the division
    by a power of the base in [encodeTkMD] are what could go wrong.) *)
Theorem EncryptCC_never_panics (e : engine) (cc : list ascii) :
  validateAlphabetProvider (alphaProvider e) = None →
  ∃ r, EncryptCC e cc = Done r.
Proof.
  intros Hv. unfold EncryptCC.
  destruct (isValidCC cc); [|by eexists]. cbn [negb].
  destruct (GetTokenizationVersion (versioner e)) as [v|]; [|by eexists].
  destruct (GetKey (encryptionKeys e) v) as [ekey|]; [|by eexists].
  destruct (GetKey (hmacKeys e) v) as [hkey|]; [|by eexists].
  destruct (ff1_NewCipher _ _ _ _) as [cipher|]; [|by eexists].
  destruct (Encrypt cipher _) as [ciphertext|]; [|by eexists].
  destruct (negb _); [by eexists|].
  destruct (encodeTkMD_validated_Done (alphaProvider e) ciphertext Hv) as [[tkmd|err] ->];
    by eexists.
Qed.

(** X12.  The format of a token: with an ASCII version byte and
    single-byte symbols, the token [EncryptCC] returns is the first 6
    bytes of the card, the version byte, [len(cc) - 11] symbols of the
    alphabet for the length of the card, and the last 4 bytes of the card;
    [isValidTK] accepts it for every list of versions that holds the
    version byte. *)
Theorem EncryptCC_token_format (e : engine) (cc tk : list ascii) (v : ascii) :
  ascii_alphabets (alphaProvider e) →
  GetTokenizationVersion (versioner e) = Ok v → is_ascii v →
  EncryptCC e cc = Done (Ok tk) →
  ∃ b alpha T,
    encodingBaseToSaveOneChar (len cc - 10) = Ok b
    ∧ GetAlphabetForBase (alphaProvider e) b = Ok alpha
    ∧ tk = take 6 cc ++ [v] ++ T ++ drop (length cc - 4) cc
    ∧ len T = len cc - 11
    ∧ Forall (λ c, c ∈ alpha) T
    ∧ ∀ vers, v ∈ vers → isValidTK tk (alphaProvider e) vers = true.
Proof.
  intros Hascii Hv Hva Henc.
  destruct (EncryptCC_inv e cc tk Henc)
    as (v' & ekey & hkey & cipher & ciphertext & tkmd
        & Hvalid & Hv' & _ & _ & _ & _ & Hclen & Htkmd & ->).
  assert (v' = v) as -> by congruence.
  apply isValidCC_spec in Hvalid as [Hlen Hd].
  destruct (card_shape cc ltac:(unfold len; lia)) as (Hcc & H6 & Hmd & H4).
  rewrite slice_0_6_take, slice_from_drop.
  destruct (encodeTkMD_inv _ _ _ Htkmd) as (b & alpha & Hcl & Hcd & Hbase & Hget & Hall & Hout).
  destruct (encodingBaseToSaveOneChar_inv _ _ Hbase) as (_ & Hreq & _).
  pose proof (encode_digits_range ciphertext b Hcl Hbase Hcd) as Hrange.
  assert (Helems : Forall (λ m, 0 ≤ m < len alpha)
            (digits b (Z.to_nat (len ciphertext - 1)) (value 10 (digit_vals ciphertext)))).
  { eapply Forall_impl2; [exact Hrange | exact Hall |]. simpl. lia. }
  apply symbols_elems in Helems.
  assert (HTascii : Forall is_ascii (symbols alpha
            (digits b (Z.to_nat (len ciphertext - 1)) (value 10 (digit_vals ciphertext))))).
  { eapply Forall_impl; [|exact Helems]. intros c Hc.
    by eapply (proj1 (list.Forall_forall _ _) (Hascii b alpha Hreq Hget)). }
  rewrite utf8_ascii in Hout by done. rewrite <- Hout in Helems, HTascii.
  pose proof (encodeTkMD_length _ _ _ Hascii Htkmd) as Htl.
  rewrite string_of_byte_ascii by done.
  assert (HdA : Forall (λ c, is_digit c = true) (take 6 cc)) by (by apply Forall_take).
  assert (HdD : Forall (λ c, is_digit c = true) (drop (length cc - 4) cc))
    by (by apply Forall_drop).
  exists b, alpha, tkmd.
  rewrite <- Hclen. split; [done|]. split; [done|]. split; [done|]. split; [lia|].
  split; [done|].
  intros vers Hin.
  apply (isValidTK_token (alphaProvider e) vers _ tkmd _ alpha v b); try done; try lia.
  by replace (len tkmd + 1) with (len ciphertext) by lia.
Qed.

(** X13.  No two cards share a token: when [EncryptCC] returns the same
    token for two cards, the cards are equal (for a cipher in which
    decryption undoes encryption, and distinct single-byte symbols). *)
Theorem EncryptCC_injective (e : engine) (cc1 cc2 tk : list ascii) :
  ff1_inverse lib →
  distinct_alphabets (alphaProvider e) → ascii_alphabets (alphaProvider e) →
  EncryptCC e cc1 = Done (Ok tk) → EncryptCC e cc2 = Done (Ok tk) →
  cc1 = cc2.
Proof.
  intros Hff1 Hnd Hascii H1 H2.
  destruct (EncryptCC_inv e cc1 tk H1)
    as (v & ekey & hkey & cipher & ct1 & tkmd1
        & Hvalid1 & Hv & Hek & Hhk & Hcipher & Hct1 & _ & Htkmd1 & Htk1).
  destruct (EncryptCC_inv e cc2 tk H2)
    as (v' & ekey' & hkey' & cipher' & ct2 & tkmd2
        & Hvalid2 & Hv' & Hek' & Hhk' & Hcipher' & Hct2 & _ & Htkmd2 & Htk2).
  assert (v' = v) as -> by congruence.
  assert (ekey' = ekey) as -> by congruence.
  assert (hkey' = hkey) as -> by congruence.
  apply isValidCC_spec in Hvalid1 as [Hlen1 _]. apply isValidCC_spec in Hvalid2 as [Hlen2 _].
  destruct (card_shape cc1 ltac:(unfold len; lia)) as (Hcc1 & HA1 & _ & HD1).
  destruct (card_shape cc2 ltac:(unfold len; lia)) as (Hcc2 & HA2 & _ & HD2).
  rewrite slice_0_6_take, slice_from_drop in Htk1, Htk2.
  rewrite Htk1 in Htk2.
  apply app_inj_1 in Htk2 as [HA Hrest]; [|congruence].
  apply app_inv_head in Hrest.
  apply app_inj_2 in Hrest as [HT HD]; [|congruence].
  subst tkmd2.
  destruct (decode_encode _ _ Hnd Hascii _ Htkmd1) as [_ Hdec1].
  destruct (decode_encode _ _ Hnd Hascii _ Htkmd2) as [_ Hdec2].
  assert (ct2 = ct1) as -> by congruence.
  assert (Hsix : EncryptCC_sixByFour cc2 = EncryptCC_sixByFour cc1).
  { destruct (sixByFour_layout cc1 ltac:(unfold len; lia)) as (-> & _ & _).
    destruct (sixByFour_layout cc2 ltac:(unfold len; lia)) as (-> & _ & _).
    by rewrite HA, HD. }
  rewrite Hsix in Hcipher'.
  assert (cipher' = cipher) as -> by congruence.
  pose proof (Hff1 _ _ _ _ _ _ _ Hcipher Hct1) as Hd1.
  pose proof (Hff1 _ _ _ _ _ _ _ Hcipher Hct2) as Hd2.
  assert (Hmd : slice cc1 6 (len cc1 - 4) = slice cc2 6 (len cc2 - 4)) by congruence.
  rewrite Hcc1, Hcc2. by rewrite HA, HD, Hmd.
Qed.

(** A token issued under a version that is not listed is refused. *)
Lemma unlisted_version_refused (e : engine) (cc tk vers : list ascii) (v : ascii) :
  GetTokenizationVersion (versioner e) = Ok v → is_ascii v →
  GetDetokenizationVersions (versioner e) = Ok vers → v ∉ vers →
  EncryptCC e cc = Done (Ok tk) →
  DecryptTK e tk = Err InvalidTK.
Proof.
  intros Hv Hva Hvers Hnot Henc.
  destruct (EncryptCC_inv e cc tk Henc)
    as (v' & ekey & hkey & cipher & ciphertext & tkmd
        & Hvalid & Hv' & _ & _ & _ & _ & _ & _ & ->).
  assert (v' = v) as -> by congruence.
  apply isValidCC_spec in Hvalid as [Hlen _].
  destruct (card_parts cc ltac:(unfold len; lia)) as (_ & H6 & _ & H4).
  rewrite string_of_byte_ascii by done.
  unfold DecryptTK. rewrite Hvers.
  destruct (isValidTK _ (alphaProvider e) vers) eqn:Hok; [|done].
  apply isValidTK_version in Hok as [Hin _].
  rewrite (token_version _ tkmd _ v H6 H4) in Hin. done.
Qed.

(** X14.  The round trip from the token side: when [DecryptTK] succeeds on
    an ASCII token and the tokenization version is the 7th byte of the
    token, [EncryptCC] of the result is that token (for a cipher in which
    encryption undoes decryption and decryption keeps length and decimal
    digits, validated alphabets and single-byte symbols). *)
Theorem EncryptCC_after_DecryptTK (e : engine) (tk cc : list ascii) :
  ff1_permutation lib →
  validateAlphabetProvider (alphaProvider e) = None → ascii_alphabets (alphaProvider e) →
  Forall is_ascii tk →
  GetTokenizationVersion (versioner e) = Ok (at_index tk 6) →
  DecryptTK e tk = Ok cc →
  EncryptCC e cc = Done (Ok tk).
Proof.
  intros Hperm Hval Hascii Htk Hv Hdec.
  destruct (DecryptTK_inv e tk cc Hdec)
    as (vers & ekey & hkey & decmd & cipher & plaintext
        & Hvers & Hvalid & Hek & Hhk & Hdecmd & Hcipher & Hpt & Hpl & ->).
  apply isValidTK_ascii in Hvalid
    as (Hlen & HdA & HdD & (b & alpha & Hbase & Hget & Hall) & Hin); [|done].
  destruct (card_shape tk ltac:(lia)) as (_ & H6 & Hmd & H4).
  rewrite slice_md_tail in Hdecmd by lia.
  set (t := slice tk 7 (len tk - 4)) in *.
  assert (Hlt : len t = len tk - 11).
  { unfold t, slice, len in *. rewrite length_take, length_drop. lia. }
  replace (len tk - 10) with (len t + 1) in Hbase by lia.
  destruct (encode_decode (alphaProvider e) t b alpha Hval Hascii ltac:(lia) Hbase Hget Hall)
    as (d & n & Hd & _ & Henc & Hdl).
  assert (d = decmd) as -> by congruence.
  destruct (Hperm _ _ _ _ _ _ _ Hcipher Hpt) as (Hre & Hlp & Hdig).
  assert (Hencode : encodeTkMD decmd (alphaProvider e) = Done (Ok t)).
  { apply Henc, Hdl. lia. }
  destruct (encodeTkMD_inv _ _ _ Hencode) as (_ & _ & _ & Hdd & _).
  specialize (Hdig Hdd).
  rewrite slice_0_6_take, slice_from_drop.
  set (A := take 6 tk) in *. set (D := drop (length tk - 4) tk) in *.
  destruct (plain_parts A plaintext D H6 H4) as (HcA & HcD & HcP & Hcl).
  assert (Hvalid : isValidCC (A ++ plaintext ++ D) = true).
  { apply isValidCC_spec. split.
    - unfold len in *. lia.
    - apply Forall_app. split; [done|]. apply Forall_app. done. }
  assert (Hsix : EncryptCC_sixByFour (A ++ plaintext ++ D) = DecryptTK_sixByFour tk).
  { destruct (sixByFour_layout (A ++ plaintext ++ D) ltac:(lia)) as (-> & _ & _).
    destruct (sixByFour_layout tk ltac:(lia)) as (_ & -> & _).
    by rewrite HcA, HcD. }
  assert (Hva : is_ascii (at_index tk 6)).
  { apply (proj1 (list.Forall_forall _ _) Htk). apply at_index_elem. lia. }
  unfold EncryptCC. rewrite Hvalid. cbn [negb].
  rewrite Hv, Hek, Hhk, Hsix, Hcipher, HcP, Hre.
  replace (len plaintext =? len decmd) with true by (symmetry; apply Z.eqb_eq; lia).
  cbn [negb]. rewrite Hencode.
  rewrite slice_0_6_take, slice_from_drop, HcA, HcD.
  rewrite string_of_byte_ascii by done.
  do 2 f_equal. symmetry. apply token_split. lia.
Qed.

(** X15.  [isValidTK] looks up [byte(el)] for each rune [el] of the middle
    segment, [decodeTkMD] each byte.  The 16-byte token 444433a + C5 A1 +
    aaa1111 holds the two-byte character U+0161, whose low byte is 'a':
    it passes [isValidTK] on the default alphabets, and [DecryptTK] fails
    on it with the unknown-symbol error of [decodeTkMD] for the byte C5,
    not with the invalid-token error. *)
Theorem isValidTK_rune_truncation (e : engine) (vers ekey hkey : list ascii) :
  let tk := str "444433a" ++ [byte_of_Z 0xC5; byte_of_Z 0xA1] ++ str "aaa1111" in
  isValidTK tk DefaultAlphabetProvider (str "abcd") = true
  ∧ decodeTkMD (slice_from (slice tk 6 (len tk - 4)) 1) DefaultAlphabetProvider
    = Err (UnknownSymbol (byte_of_Z 0xC5))
  ∧ (alphaProvider e = DefaultAlphabetProvider →
     GetDetokenizationVersions (versioner e) = Ok vers → "a"%char ∈ vers →
     GetKey (encryptionKeys e) "a"%char = Ok ekey →
     GetKey (hmacKeys e) "a"%char = Ok hkey →
     DecryptTK e tk = Err (UnknownSymbol (byte_of_Z 0xC5))).
Proof.
  intros tk. split; [vm_compute; reflexivity|]. split; [vm_compute; reflexivity|].
  intros Hap Hvers Hin Hek Hhk.
  unfold DecryptTK. rewrite Hvers, Hap.
  assert (Hvalid : isValidTK tk DefaultAlphabetProvider vers = true).
  { unfold isValidTK.
    change (at_index tk 6) with "a"%char.
    rewrite (proj2 (contains_spec vers "a"%char) Hin).
    vm_compute. reflexivity. }
  rewrite Hvalid. cbn [negb].
  change (at_index tk 6) with "a"%char. rewrite Hek, Hhk.
  replace (decodeTkMD (slice_from (slice tk 6 (len tk - 4)) 1) DefaultAlphabetProvider)
    with (@Err (list ascii) (UnknownSymbol (byte_of_Z 0xC5))) by (vm_compute; reflexivity).
  reflexivity.
Qed.

End TokenTheorems.

Lemma toyLibrary_ff1_permutation : ff1_permutation toyLibrary.
Proof.
  intros radix maxTLen key tweak c x y Hc Hd. cbn in Hc.
  destruct (bool_decide _); [|done]. injection Hc as <-.
  cbn in *. injection Hd as <-. split; [by rewrite reverse_involutive|].
  split; [unfold len; by rewrite length_reverse|].
  intros Hy. by apply Forall_reverse.
Qed.

(** [isValidTK_accepts] on the token of the nominal test case. *)
Lemma isValidTK_accepts_witness :
  ∃ d, decodeTkMD (slice_from (slice (str "444433adgebj1111") 6
                                 (len (str "444433adgebj1111") - 4)) 1)
         DefaultAlphabetProvider = Ok d
       ∧ Forall (λ c, is_digit c = true) d
       ∧ len (str "444433adgebj1111") - 10 ≤ len d.
Proof.
  assert (Ha : Forall is_ascii (str "444433adgebj1111")).
  { repeat (apply List.Forall_cons; [vm_compute; reflexivity|]). apply List.Forall_nil. }
  apply (proj2 (isValidTK_accepts (lib := toyLibrary) (str "444433adgebj1111")
                  DefaultAlphabetProvider (str "abcd") Ha)).
  vm_compute. reflexivity.
Defined.

(** [DecryptTK_shape] on the nominal test case. *)
Lemma DecryptTK_shape_witness :
  length (str "4444333322221111") = length (str "444433adgebj1111")
  ∧ 13 ≤ len (str "444433adgebj1111") ≤ 19
  ∧ take 6 (str "4444333322221111") = take 6 (str "444433adgebj1111")
  ∧ drop (length (str "4444333322221111") - 4) (str "4444333322221111")
    = drop (length (str "444433adgebj1111") - 4) (str "444433adgebj1111")
  ∧ ∃ vers, GetDetokenizationVersions (versioner testEngine) = Ok vers
            ∧ at_index (str "444433adgebj1111") 6 ∈ vers.
Proof.
  apply (DecryptTK_shape (lib := toyLibrary) testEngine).
  vm_compute. reflexivity.
Defined.

(** [EncryptCC_never_panics] on the engine of the nominal test cases. *)
Lemma EncryptCC_never_panics_witness :
  ∃ r, EncryptCC (lib := toyLibrary) testEngine (str "4444333322221111") = Done r.
Proof.
  apply (EncryptCC_never_panics (lib := toyLibrary) testEngine).
  exact DefaultAlphabetProvider_valid.
Defined.

(** [EncryptCC_token_format] on the nominal test case. *)
Lemma EncryptCC_token_format_witness :
  ∃ b alpha T,
    encodingBaseToSaveOneChar (len (str "4444333322221111") - 10) = Ok b
    ∧ GetAlphabetForBase (alphaProvider testEngine) b = Ok alpha
    ∧ str "444433adgebj1111"
      = take 6 (str "4444333322221111") ++ ["a"%char] ++ T
        ++ drop (length (str "4444333322221111") - 4) (str "4444333322221111")
    ∧ len T = len (str "4444333322221111") - 11
    ∧ Forall (λ c, c ∈ alpha) T
    ∧ ∀ vers, "a"%char ∈ vers →
        isValidTK (lib := toyLibrary) (str "444433adgebj1111")
          (alphaProvider testEngine) vers = true.
Proof.
  apply (EncryptCC_token_format (lib := toyLibrary) testEngine).
  - exact DefaultAlphabetProvider_ascii.
  - reflexivity.
  - vm_compute. reflexivity.
  - vm_compute. reflexivity.
Defined.

(** [EncryptCC_injective] on the nominal test case. *)
Lemma EncryptCC_injective_witness : str "4444333322221111" = str "4444333322221111".
Proof.
  apply (EncryptCC_injective (lib := toyLibrary) testEngine
           (str "4444333322221111") (str "4444333322221111") (str "444433adgebj1111")).
  - exact toyLibrary_ff1_inverse.
  - exact DefaultAlphabetProvider_distinct.
  - exact DefaultAlphabetProvider_ascii.
  - vm_compute. reflexivity.
  - vm_compute. reflexivity.
Defined.

(** [EncryptCC_after_DecryptTK] on the nominal test case. *)
Lemma EncryptCC_after_DecryptTK_witness :
  EncryptCC (lib := toyLibrary) testEngine (str "4444333322221111")
  = Done (Ok (str "444433adgebj1111")).
Proof.
  apply (EncryptCC_after_DecryptTK (lib := toyLibrary) testEngine (str "444433adgebj1111")).
  - exact toyLibrary_ff1_permutation.
  - exact DefaultAlphabetProvider_valid.
  - exact DefaultAlphabetProvider_ascii.
  - repeat (apply List.Forall_cons; [vm_compute; reflexivity|]). apply List.Forall_nil.
  - reflexivity.
  - vm_compute. reflexivity.
Defined.

End Tokens.

(** ** The demo engine and the command *)

Module Commands.
Import Go GoLib tkengine tkengine_demo tkengine_test main.
Import Notions FurtherNotions GoFacts Codec Engine CodecEdges Tokens.

Lemma NewDummyEngine_keys (rand_Intn : Z → Z) :
  ∃ k1 k2 k3 k4 h1 h2 h3 h4 : list ascii,
    Forall (λ k, len k = 16) [k1; k2; k3; k4; h1; h2; h3; h4]
    ∧ NewDummyEngine rand_Intn
      = Ok {| encryptionKeys := keyRepo_KeyRepo
                {| keys := <["d"%char := k4]> (<["c"%char := k3]>
                             (<["b"%char := k2]> (<["a"%char := k1]> ∅))) |};
              hmacKeys := keyRepo_KeyRepo
                {| keys := <["d"%char := h4]> (<["c"%char := h3]>
                             (<["b"%char := h2]> (<["a"%char := h1]> ∅))) |};
              versioner := dummyVersioner rand_Intn;
              alphaProvider := DefaultAlphabetProvider |}.
Proof.
  do 8 eexists. split; [|reflexivity].
  repeat (apply List.Forall_cons; [reflexivity|]). apply List.Forall_nil.
Qed.

Lemma keyRepo_four (k1 k2 k3 k4 : list ascii) (w : ascii) :
  let r := {| keys := <["d"%char := k4]> (<["c"%char := k3]>
                        (<["b"%char := k2]> (<["a"%char := k1]> ∅))) |} in
  (w ∈ str "abcd" → ∃ k, keyRepo_GetKey r w = Ok k ∧ k ∈ [k1; k2; k3; k4])
  ∧ (w ∉ str "abcd" → keyRepo_GetKey r w = Err (NoKey w)).
Proof.
  intros r. unfold keyRepo_GetKey, r. cbn [keys]. split.
  - intros Hw. change (str "abcd") with ["a"; "b"; "c"; "d"]%char in Hw.
    repeat (apply list.elem_of_cons in Hw as [->|Hw]);
      [..|by apply list.elem_of_nil in Hw]; eexists; (split; [reflexivity|]).
    + apply list_elem_of_here.
    + do 1 apply list_elem_of_further. apply list_elem_of_here.
    + do 2 apply list_elem_of_further. apply list_elem_of_here.
    + do 3 apply list_elem_of_further. apply list_elem_of_here.
  - intros Hw. change (str "abcd") with ["a"; "b"; "c"; "d"]%char in Hw.
    rewrite !lookup_insert_ne, lookup_empty; [done|..];
      intros <-; apply Hw; repeat ((by apply list_elem_of_here) || apply list_elem_of_further).
Qed.

(** X16.  [NewDummyEngine] succeeds.  Whatever the random draw, the
    version its versioner picks is one of a, b, c, d, the versions it
    lists for detokenization; both repositories hold a 16-byte key for it,
    and a key for no version outside a, b, c, d; its alphabets pass
    [validateAlphabetProvider]. *)
Theorem NewDummyEngine_versions (rand_Intn : Z → Z) :
  0 ≤ rand_Intn 4 < 4 →
  ∃ e v ekey hkey,
    NewDummyEngine rand_Intn = Ok e
    ∧ validateAlphabetProvider (alphaProvider e) = None
    ∧ GetTokenizationVersion (versioner e) = Ok v
    ∧ GetDetokenizationVersions (versioner e) = Ok (str "abcd")
    ∧ v ∈ str "abcd"
    ∧ GetKey (encryptionKeys e) v = Ok ekey ∧ len ekey = 16
    ∧ GetKey (hmacKeys e) v = Ok hkey ∧ len hkey = 16
    ∧ ∀ w, w ∉ str "abcd" →
        GetKey (encryptionKeys e) w = Err (NoKey w)
        ∧ GetKey (hmacKeys e) w = Err (NoKey w).
Proof.
  intros Hr.
  destruct (NewDummyEngine_keys rand_Intn)
    as (k1 & k2 & k3 & k4 & h1 & h2 & h3 & h4 & Hk & ->).
  set (v := at_index (str "abcd") (rand_Intn 4)).
  assert (Hv : v ∈ str "abcd").
  { apply at_index_elem. change (len (str "abcd")) with 4. lia. }
  destruct (keyRepo_four k1 k2 k3 k4 v) as [Hek _].
  destruct (keyRepo_four h1 h2 h3 h4 v) as [Hhk _].
  destruct (Hek Hv) as (ekey & Hekey & Hein). destruct (Hhk Hv) as (hkey & Hhkey & Hhin).
  change [k1; k2; k3; k4; h1; h2; h3; h4] with ([k1; k2; k3; k4] ++ [h1; h2; h3; h4]) in Hk.
  apply Forall_app in Hk as [Hke Hkh].
  rewrite list.Forall_forall in Hke, Hkh.
  eexists _, v, ekey, hkey. split; [reflexivity|]. cbn [alphaProvider versioner encryptionKeys hmacKeys].
  split; [exact DefaultAlphabetProvider_valid|].
  split; [reflexivity|]. split; [reflexivity|]. split; [exact Hv|].
  split; [exact Hekey|]. split.
  { by apply Hke. }
  split; [exact Hhkey|]. split.
  { by apply Hkh. }
  intros w Hw. split.
  - by apply (keyRepo_four k1 k2 k3 k4 w).
  - by apply (keyRepo_four h1 h2 h3 h4 w).
Qed.

(** [NewDummyEngine_versions] when the draw is 2. *)
Lemma NewDummyEngine_versions_witness :
  ∃ e v ekey hkey,
    NewDummyEngine (λ _, 2) = Ok e
    ∧ validateAlphabetProvider (alphaProvider e) = None
    ∧ GetTokenizationVersion (versioner e) = Ok v
    ∧ GetDetokenizationVersions (versioner e) = Ok (str "abcd")
    ∧ v ∈ str "abcd"
    ∧ GetKey (encryptionKeys e) v = Ok ekey ∧ len ekey = 16
    ∧ GetKey (hmacKeys e) v = Ok hkey ∧ len hkey = 16
    ∧ ∀ w, w ∉ str "abcd" →
        GetKey (encryptionKeys e) w = Err (NoKey w)
        ∧ GetKey (hmacKeys e) w = Err (NoKey w).
Proof.
  apply (NewDummyEngine_versions (λ _, 2)). lia.
Defined.

(** The key repositories of a configuration. *)

Lemma EncKeysRepo_GetKey_loop_entry (r : list Version) (v : ascii) (ver : Version) :
  entry_for r v ver → EncKeysRepo_GetKey_loop r v = Ok (EncryptionKey ver).
Proof.
  intros (pre & post & -> & Hid & Hpre).
  induction Hpre as [|w pre Hw Hpre IH]; cbn [app EncKeysRepo_GetKey_loop].
  - by rewrite bool_decide_eq_true_2.
  - by rewrite bool_decide_eq_false_2.
Qed.

Lemma HmacKeysRepo_GetKey_loop_entry (r : list Version) (v : ascii) (ver : Version) :
  entry_for r v ver → HmacKeysRepo_GetKey_loop r v = Ok (HmacKey ver).
Proof.
  intros (pre & post & -> & Hid & Hpre).
  induction Hpre as [|w pre Hw Hpre IH]; cbn [app HmacKeysRepo_GetKey_loop].
  - by rewrite bool_decide_eq_true_2.
  - by rewrite bool_decide_eq_false_2.
Qed.

Lemma entry_for_cons (w : Version) (r : list Version) (v : ascii) (ver : Version) :
  Vid w ≠ string_of_byte v → entry_for r v ver → entry_for (w :: r) v ver.
Proof.
  intros Hw (pre & post & -> & Hid & Hpre).
  exists (w :: pre), post. split; [done|]. split; [done|]. by apply List.Forall_cons.
Qed.

Lemma EncKeysRepo_GetKey_loop_inv (r : list Version) (v : ascii) (k : list ascii) :
  EncKeysRepo_GetKey_loop r v = Ok k → ∃ ver, entry_for r v ver ∧ k = EncryptionKey ver.
Proof.
  induction r as [|w r IH]; cbn [EncKeysRepo_GetKey_loop]; [done|].
  destruct (bool_decide_reflect (string_of_byte v = Vid w)) as [Heq|Hne].
  - intros [= <-]. exists w. split; [|done]. exists [], r. done.
  - intros H. destruct (IH H) as (ver & Hent & ->). exists ver. split; [|done].
    apply entry_for_cons; [congruence|done].
Qed.

Lemma HmacKeysRepo_GetKey_loop_inv (r : list Version) (v : ascii) (k : list ascii) :
  HmacKeysRepo_GetKey_loop r v = Ok k → ∃ ver, entry_for r v ver ∧ k = HmacKey ver.
Proof.
  induction r as [|w r IH]; cbn [HmacKeysRepo_GetKey_loop]; [done|].
  destruct (bool_decide_reflect (string_of_byte v = Vid w)) as [Heq|Hne].
  - intros [= <-]. exists w. split; [|done]. exists [], r. done.
  - intros H. destruct (IH H) as (ver & Hent & ->). exists ver. split; [|done].
    apply entry_for_cons; [congruence|done].
Qed.

Lemma string_of_byte_length (v : ascii) :
  (len (string_of_byte v) = 1 ∧ is_ascii v) ∨ (len (string_of_byte v) = 2 ∧ 128 ≤ byte_to_Z v).
Proof.
  unfold string_of_byte, is_ascii, rune1Max.
  destruct (Z.leb_spec (byte_to_Z v) (2 ^ 7 - 1)); [left|right]; (split; [reflexivity|lia]).
Qed.

Lemma entry_for_ascii (r : list Version) (v : ascii) (ver : Version) :
  Forall (λ w, len (Vid w) ≤ 1) r → entry_for r v ver → is_ascii v.
Proof.
  intros Hr (pre & post & -> & Hid & _).
  apply Forall_app in Hr as [_ Hr]. apply List.Forall_cons_iff in Hr as [Hver _].
  rewrite Hid in Hver.
  destruct (string_of_byte_length v) as [[_ ?]|[Hl _]]; [done|lia].
Qed.

(** X17.  The two key repositories of a configuration answer from the
    same entry: the first one whose id is [string(version)].  Both fail
    when there is none; and a version byte at or above 0x80, whose
    [string] takes two bytes, has none among ids of one byte. *)
Theorem KeysRepo_same_entry (r : list Version) (v : ascii) :
  (∀ ver, entry_for r v ver →
     EncKeysRepo_GetKey (Some r) v = Ok (EncryptionKey ver)
     ∧ HmacKeysRepo_GetKey (Some r) v = Ok (HmacKey ver))
  ∧ ((∀ ver, ¬ entry_for r v ver) →
     (∃ e1, EncKeysRepo_GetKey (Some r) v = Err e1)
     ∧ (∃ e2, HmacKeysRepo_GetKey (Some r) v = Err e2))
  ∧ (128 ≤ byte_to_Z v → Forall (λ w, len (Vid w) ≤ 1) r → ∀ ver, ¬ entry_for r v ver).
Proof.
  cbn [EncKeysRepo_GetKey HmacKeysRepo_GetKey]. split; [|split].
  - intros ver Hent. split.
    + by apply EncKeysRepo_GetKey_loop_entry.
    + by apply HmacKeysRepo_GetKey_loop_entry.
  - intros Hnone. split.
    + destruct (EncKeysRepo_GetKey_loop r v) as [k|e1] eqn:H; [|by exists e1].
      apply EncKeysRepo_GetKey_loop_inv in H as (ver & Hent & _). by destruct (Hnone ver).
    + destruct (HmacKeysRepo_GetKey_loop r v) as [k|e2] eqn:H; [|by exists e2].
      apply HmacKeysRepo_GetKey_loop_inv in H as (ver & Hent & _). by destruct (Hnone ver).
  - intros Hv Hr ver Hent. pose proof (entry_for_ascii r v ver Hr Hent) as Ha.
    unfold is_ascii in Ha. lia.
Qed.

Lemma parseConfig_loop_ok (r : list Version) (detokVer : list ascii) :
  parseConfig_loop r r detokVer = Ok tt
  ↔ Forall (λ d, ∃ ver, entry_for r d ver) detokVer.
Proof.
  induction detokVer as [|d rest IH]; cbn [parseConfig_loop EncKeysRepo_GetKey HmacKeysRepo_GetKey].
  - split; [intros _; apply List.Forall_nil | done].
  - rewrite List.Forall_cons_iff, <- IH. split.
    + destruct (EncKeysRepo_GetKey_loop r d) as [k|] eqn:Hk; [|done].
      destruct (HmacKeysRepo_GetKey_loop r d) as [h|] eqn:Hh; [|done].
      intros H. split; [|done].
      apply EncKeysRepo_GetKey_loop_inv in Hk as (ver & Hent & _). by exists ver.
    + intros [(ver & Hent) H].
      rewrite (EncKeysRepo_GetKey_loop_entry r d ver Hent),
              (HmacKeysRepo_GetKey_loop_entry r d ver Hent). done.
Qed.

Lemma Versioner_GetTokenizationVersion_ok (vr : Versioner) (v : ascii) :
  Versioner_GetTokenizationVersion (Some vr) = Ok v ↔ TokenizationVersion vr = [v].
Proof.
  cbn [Versioner_GetTokenizationVersion].
  destruct (TokenizationVersion vr) as [|x [|y l]] eqn:Ht.
  - split; [done|done].
  - change (len [x] =? 1) with true. cbn [negb].
    change (at_index [x] 0) with x. split; congruence.
  - replace (len (x :: y :: l) =? 1) with false.
    + split; [done|congruence].
    + symmetry. apply Z.eqb_neq. unfold len. cbn [length]. lia.
Qed.

Lemma parseConfig_inv (c : Config) ps :
  parseConfig (Some c) = Ok ps →
  ∃ v, TokenizationVersion (Config_Versioner c) = [v]
    ∧ Forall (λ d, ∃ ver, entry_for (Versions c) d ver)
        (v :: DetokenizationVersions (Config_Versioner c))
    ∧ ps = ({| GetTokenizationVersion :=
                 Versioner_GetTokenizationVersion (Some (Config_Versioner c));
               GetDetokenizationVersions :=
                 Versioner_GetDetokenizationVersions (Config_Versioner c) |},
            {| GetKey := EncKeysRepo_GetKey (Some (Versions c)) |},
            {| GetKey := HmacKeysRepo_GetKey (Some (Versions c)) |},
            {| GetAlphabetForBase := alphaProvider_GetAlphabetForBase (Some (CharSets c)) |}).
Proof.
  unfold parseConfig.
  destruct (Versioner_GetTokenizationVersion (Some (Config_Versioner c))) as [v|] eqn:Hv; [|done].
  cbn [EncKeysRepo_GetKey HmacKeysRepo_GetKey Versioner_GetDetokenizationVersions].
  destruct (EncKeysRepo_GetKey_loop (Versions c) v) as [k|] eqn:Hk; [|done].
  destruct (HmacKeysRepo_GetKey_loop (Versions c) v) as [h|] eqn:Hh; [|done].
  destruct (parseConfig_loop _ _ _) as [[]|] eqn:Hl; [|done].
  intros [= <-]. exists v.
  apply Versioner_GetTokenizationVersion_ok in Hv. split; [done|]. split; [|done].
  apply List.Forall_cons.
  - apply EncKeysRepo_GetKey_loop_inv in Hk as (ver & Hent & _). by exists ver.
  - by apply parseConfig_loop_ok.
Qed.

(** X18.  [parseConfig] fails on a nil configuration, and accepts a
    configuration exactly when its tokenization version is one byte and
    that byte and every detokenization version have an entry in the
    version list. *)
Theorem parseConfig_accepts (c : Config) :
  (∃ e, parseConfig None = Err e)
  ∧ ((∃ ps, parseConfig (Some c) = Ok ps)
     ↔ ∃ v, TokenizationVersion (Config_Versioner c) = [v]
            ∧ Forall (λ d, ∃ ver, entry_for (Versions c) d ver)
                (v :: DetokenizationVersions (Config_Versioner c))).
Proof.
  split; [by eexists|]. split.
  - intros [ps H]. destruct (parseConfig_inv c ps H) as (v & Hv & Hall & _). by exists v.
  - intros (v & Hv & Hall). apply List.Forall_cons_iff in Hall as [(ver & Hent) Hall].
    unfold parseConfig.
    rewrite (proj2 (Versioner_GetTokenizationVersion_ok _ v) Hv).
    cbn [EncKeysRepo_GetKey HmacKeysRepo_GetKey Versioner_GetDetokenizationVersions].
    rewrite (EncKeysRepo_GetKey_loop_entry _ v ver Hent),
            (HmacKeysRepo_GetKey_loop_entry _ v ver Hent).
    rewrite (proj2 (parseConfig_loop_ok _ _) Hall). by eexists.
Qed.

(** X19.  The providers [parseConfig] returns: the versioner answers the
    byte of the tokenization version and the bytes of the detokenization
    versions; for each of them both repositories return the keys of its
    entry; the alphabet of a base is what the character sets hold under
    the decimal spelling of the base; and when every id is at most one
    byte, all these versions are ASCII. *)
Theorem parseConfig_providers (c : Config) (kv : KeyVersioner) (ek hk : KeyRepo)
    (ap : AlphabetProvider) :
  parseConfig (Some c) = Ok (kv, ek, hk, ap) →
  ∃ v, TokenizationVersion (Config_Versioner c) = [v]
    ∧ GetTokenizationVersion kv = Ok v
    ∧ GetDetokenizationVersions kv = Ok (DetokenizationVersions (Config_Versioner c))
    ∧ (∀ d, d ∈ v :: DetokenizationVersions (Config_Versioner c) →
         ∃ ver, entry_for (Versions c) d ver
                ∧ GetKey ek d = Ok (EncryptionKey ver)
                ∧ GetKey hk d = Ok (HmacKey ver))
    ∧ (∀ base alpha, GetAlphabetForBase ap base = Ok alpha
                     ↔ CharSets c !! strconv_Itoa base = Some alpha)
    ∧ (Forall (λ w, len (Vid w) ≤ 1) (Versions c) →
       Forall is_ascii (v :: DetokenizationVersions (Config_Versioner c))).
Proof.
  intros H. destruct (parseConfig_inv c _ H) as (v & Hv & Hall & [= -> -> -> ->]).
  exists v. cbn [GetTokenizationVersion GetDetokenizationVersions GetKey GetAlphabetForBase].
  split; [done|]. split; [by apply Versioner_GetTokenizationVersion_ok|].
  split; [done|]. split; [|split].
  - intros d Hd. rewrite list.Forall_forall in Hall. destruct (Hall d Hd) as (ver & Hent).
    exists ver. split; [done|]. cbn [EncKeysRepo_GetKey HmacKeysRepo_GetKey]. split.
    + by apply EncKeysRepo_GetKey_loop_entry.
    + by apply HmacKeysRepo_GetKey_loop_entry.
  - intros base alpha. cbn [alphaProvider_GetAlphabetForBase].
    destruct (CharSets c !! strconv_Itoa base); split; congruence.
  - intros Hr. eapply Forall_impl; [|exact Hall].
    intros d (ver & Hent). by apply (entry_for_ascii _ d ver Hr).
Qed.

(** [parseConfig_providers] on the sample configuration. *)
Lemma parseConfig_providers_witness :
  ∃ v, TokenizationVersion (Config_Versioner sampleConfig) = [v]
    ∧ GetTokenizationVersion (versioner sampleEngine) = Ok v
    ∧ GetDetokenizationVersions (versioner sampleEngine)
      = Ok (DetokenizationVersions (Config_Versioner sampleConfig))
    ∧ (∀ d, d ∈ v :: DetokenizationVersions (Config_Versioner sampleConfig) →
         ∃ ver, entry_for (Versions sampleConfig) d ver
                ∧ GetKey (encryptionKeys sampleEngine) d = Ok (EncryptionKey ver)
                ∧ GetKey (hmacKeys sampleEngine) d = Ok (HmacKey ver))
    ∧ (∀ base alpha, GetAlphabetForBase (alphaProvider sampleEngine) base = Ok alpha
                     ↔ CharSets sampleConfig !! strconv_Itoa base = Some alpha)
    ∧ (Forall (λ w, len (Vid w) ≤ 1) (Versions sampleConfig) →
       Forall is_ascii (v :: DetokenizationVersions (Config_Versioner sampleConfig))).
Proof.
  apply (parseConfig_providers sampleConfig). reflexivity.
Defined.

Section CommandTheorems.
Context {lib : Library}.

Lemma buildTKEngine_conf (readConfigFile : list ascii → result (option Config))
    (rand_Intn : Z → Z) (confFile : list ascii) (c : Config) (e : engine) :
  confFile ≠ [] → readConfigFile confFile = Ok (Some c) →
  buildTKEngine readConfigFile rand_Intn confFile = Ok e →
  ∃ kv ek hk ap, parseConfig (Some c) = Ok (kv, ek, hk, ap)
    ∧ validateAlphabetProvider ap = None
    ∧ e = {| versioner := kv; encryptionKeys := ek; hmacKeys := hk; alphaProvider := ap |}.
Proof.
  intros Hne Hread. unfold buildTKEngine.
  rewrite bool_decide_eq_false_2 by done. rewrite Hread.
  destruct (parseConfig (Some c)) as [[[[kv ek] hk] ap]|] eqn:Hp; [|done].
  unfold NewEngine. destruct (validateAlphabetProvider ap) eqn:Hval; [done|].
  intros [= <-]. by exists kv, ek, hk, ap.
Qed.

(** X20.  The engine [buildTKEngine] returns, from the demo or from a
    configuration file: its alphabets pass [validateAlphabetProvider], its
    versioner answers, and both key repositories hold a key for the
    tokenization version and for every detokenization version. *)
Theorem buildTKEngine_sound (readConfigFile : list ascii → result (option Config))
    (rand_Intn : Z → Z) (confFile : list ascii) (e : engine) :
  0 ≤ rand_Intn 4 < 4 →
  buildTKEngine readConfigFile rand_Intn confFile = Ok e →
  validateAlphabetProvider (alphaProvider e) = None
  ∧ ∃ v vers,
      GetTokenizationVersion (versioner e) = Ok v
      ∧ GetDetokenizationVersions (versioner e) = Ok vers
      ∧ ∀ d, d ∈ v :: vers →
          ∃ ekey hkey, GetKey (encryptionKeys e) d = Ok ekey
                       ∧ GetKey (hmacKeys e) d = Ok hkey.
Proof.
  intros Hr Hbuild. unfold buildTKEngine in Hbuild.
  destruct (bool_decide_reflect (confFile = [])) as [->|Hne].
  - destruct (NewDummyEngine_keys rand_Intn)
      as (k1 & k2 & k3 & k4 & h1 & h2 & h3 & h4 & _ & Hd).
    rewrite Hd in Hbuild. injection Hbuild as <-.
    cbn [alphaProvider versioner encryptionKeys hmacKeys].
    split; [exact DefaultAlphabetProvider_valid|].
    exists (at_index (str "abcd") (rand_Intn 4)), (str "abcd").
    split; [reflexivity|]. split; [reflexivity|].
    intros d Hd'.
    assert (Hin : d ∈ str "abcd").
    { apply list.elem_of_cons in Hd' as [->|]; [|done].
      apply at_index_elem. change (len (str "abcd")) with 4. lia. }
    destruct (keyRepo_four k1 k2 k3 k4 d) as [Hek _].
    destruct (keyRepo_four h1 h2 h3 h4 d) as [Hhk _].
    destruct (Hek Hin) as (ekey & Hekey & _). destruct (Hhk Hin) as (hkey & Hhkey & _).
    by exists ekey, hkey.
  - destruct (readConfigFile confFile) as [conf|] eqn:Hread; [|done].
    destruct (parseConfig conf) as [[[[kv ek] hk] ap]|] eqn:Hp; [|done].
    destruct conf as [c|]; [|done].
    unfold NewEngine in Hbuild.
    destruct (validateAlphabetProvider ap) eqn:Hval; [done|].
    injection Hbuild as <-. cbn [alphaProvider versioner encryptionKeys hmacKeys].
    split; [done|].
    destruct (parseConfig_inv c _ Hp) as (v & Hv & Hall & [= -> -> -> ->]).
    exists v, (DetokenizationVersions (Config_Versioner c)).
    cbn [GetTokenizationVersion GetDetokenizationVersions GetKey].
    split; [by apply Versioner_GetTokenizationVersion_ok|]. split; [done|].
    intros d Hd. rewrite list.Forall_forall in Hall. destruct (Hall d Hd) as (ver & Hent).
    exists (EncryptionKey ver), (HmacKey ver).
    cbn [EncKeysRepo_GetKey HmacKeysRepo_GetKey]. split.
    + by apply EncKeysRepo_GetKey_loop_entry.
    + by apply HmacKeysRepo_GetKey_loop_entry.
Qed.

(** X21.  [parseConfig] does not ask the tokenization version to be among
    the detokenization versions.  The engine [buildTKEngine] makes of such
    a configuration refuses every token it issues: [DecryptTK] fails with
    the invalid-token error on the result of [EncryptCC]. *)
Theorem buildTKEngine_version_gap (readConfigFile : list ascii → result (option Config))
    (rand_Intn : Z → Z) (confFile : list ascii) (c : Config) (e : engine)
    (v : ascii) (cc tk : list ascii) :
  confFile ≠ [] → readConfigFile confFile = Ok (Some c) →
  buildTKEngine readConfigFile rand_Intn confFile = Ok e →
  TokenizationVersion (Config_Versioner c) = [v] → is_ascii v →
  v ∉ DetokenizationVersions (Config_Versioner c) →
  EncryptCC e cc = Done (Ok tk) →
  DecryptTK e tk = Err InvalidTK.
Proof.
  intros Hne Hread Hbuild Hv Hva Hnot Henc.
  destruct (buildTKEngine_conf _ _ _ c e Hne Hread Hbuild) as (kv & ek & hk & ap & Hp & _ & ->).
  destruct (parseConfig_inv c _ Hp) as (v' & Hv' & _ & [= -> -> -> ->]).
  apply (unlisted_version_refused _ cc tk (DetokenizationVersions (Config_Versioner c)) v);
    try done.
  cbn [versioner GetTokenizationVersion]. by apply Versioner_GetTokenizationVersion_ok.
Qed.

End CommandTheorems.

(** The command on the sample configuration. *)
Lemma buildTKEngine_sampleEngine :
  buildTKEngine (λ _, Ok (Some sampleConfig)) (λ _, 0) (str "conf.json") = Ok sampleEngine.
Proof.
  unfold buildTKEngine. rewrite bool_decide_eq_false_2 by discriminate.
  assert (Hp : parseConfig (Some sampleConfig)
               = Ok (versioner sampleEngine, encryptionKeys sampleEngine,
                     hmacKeys sampleEngine, alphaProvider sampleEngine)) by reflexivity.
  rewrite Hp. unfold NewEngine.
  assert (Hv : validateAlphabetProvider (alphaProvider sampleEngine) = None)
    by (vm_compute; reflexivity).
  rewrite Hv. reflexivity.
Qed.

(** [buildTKEngine_version_gap] on the sample configuration. *)
Lemma buildTKEngine_version_gap_witness :
  EncryptCC (lib := toyLibrary) sampleEngine (str "4444333322221111")
  = Done (Ok (str "444433adgebj1111"))
  ∧ DecryptTK (lib := toyLibrary) sampleEngine (str "444433adgebj1111") = Err InvalidTK.
Proof.
  assert (Henc : EncryptCC (lib := toyLibrary) sampleEngine (str "4444333322221111")
                 = Done (Ok (str "444433adgebj1111"))) by (vm_compute; reflexivity).
  split; [exact Henc|].
  apply (buildTKEngine_version_gap (lib := toyLibrary) (λ _, Ok (Some sampleConfig)) (λ _, 0)
           (str "conf.json") sampleConfig sampleEngine "a"%char
           (str "4444333322221111") (str "444433adgebj1111")).
  - discriminate.
  - reflexivity.
  - exact buildTKEngine_sampleEngine.
  - reflexivity.
  - vm_compute. reflexivity.
  - apply (bool_decide_unpack _). vm_compute. exact I.
  - exact Henc.
Defined.

(** [buildTKEngine_sound] on the sample configuration. *)
Lemma buildTKEngine_sound_witness :
  validateAlphabetProvider (alphaProvider sampleEngine) = None
  ∧ ∃ v vers,
      GetTokenizationVersion (versioner sampleEngine) = Ok v
      ∧ GetDetokenizationVersions (versioner sampleEngine) = Ok vers
      ∧ ∀ d, d ∈ v :: vers →
          ∃ ekey hkey, GetKey (encryptionKeys sampleEngine) d = Ok ekey
                       ∧ GetKey (hmacKeys sampleEngine) d = Ok hkey.
Proof.
  apply (buildTKEngine_sound (λ _, Ok (Some sampleConfig)) (λ _, 0) (str "conf.json")).
  - lia.
  - exact buildTKEngine_sampleEngine.
Defined.

End Commands.

(** ** Keys in a configuration file *)

Module Serialization.
Import Go GoLib tkengine main Notions FurtherNotions GoFacts.

Lemma hex_DecodeString_pair (p q : ascii) (rest : list ascii) :
  hex_DecodeString (p :: q :: rest)
  = match fromHexChar p, fromHexChar q with
    | Some a, Some b =>
      let '(dst, err) := hex_DecodeString rest in
      (byte_of_Z (Z.lor (Z.shiftl a 4) b) :: dst, err)
    | _, _ => ([], Some (External "encoding/hex: invalid byte"))
    end.
Proof. reflexivity. Qed.

Lemma hex_digits_of_byte (c : ascii) :
  let digits := str "0123456789abcdef" in
  ∃ a b,
    fromHexChar (at_index digits (Z.shiftr (byte_to_Z c) 4)) = Some a
    ∧ fromHexChar (at_index digits (Z.land (byte_to_Z c) 0xF)) = Some b
    ∧ byte_of_Z (Z.lor (Z.shiftl a 4) b) = c.
Proof.
  destruct c as [[] [] [] [] [] [] [] []];
    eexists _, _; (split; [reflexivity|split; reflexivity]).
Qed.

Lemma hex_DecodeString_Sprintf (s tail : list ascii) :
  hex_DecodeString (fmt_Sprintf_x s ++ tail)
  = (s ++ (hex_DecodeString tail).1, (hex_DecodeString tail).2).
Proof.
  induction s as [|c s IH].
  - cbn [fmt_Sprintf_x app]. by destruct (hex_DecodeString tail).
  - cbn [fmt_Sprintf_x app]. cbv zeta. rewrite hex_DecodeString_pair.
    destruct (hex_digits_of_byte c) as (a & b & -> & -> & Hc).
    rewrite IH, Hc. reflexivity.
Qed.

(** X22.  [ByteString] round trip: when decoding a JSON string undoes
    encoding it, [UnmarshalJSON] of what [MarshalJSON] returned for [s]
    leaves [s] in the receiver and returns no error.  On a JSON string
    that holds the hexadecimal digits of [s] and one more character,
    [UnmarshalJSON] returns an error and still overwrites the receiver,
    with [s]. *)
Theorem ByteString_roundtrip (j : JSON) (s s0 data : list ascii) :
  json_inverse j →
  ByteString_MarshalJSON j s = Ok data →
  ByteString_UnmarshalJSON j s0 data = (s, None)
  ∧ ∀ data' c, json_Unmarshal j data' = Ok (fmt_Sprintf_x s ++ [c]) →
      ∃ err, ByteString_UnmarshalJSON j s0 data' = (s, Some err).
Proof.
  intros Hj Hm. unfold ByteString_MarshalJSON in Hm. unfold ByteString_UnmarshalJSON. split.
  - rewrite (Hj _ _ Hm).
    rewrite <- (app_nil_r (fmt_Sprintf_x s)), hex_DecodeString_Sprintf.
    cbn [hex_DecodeString fst snd]. by rewrite app_nil_r.
  - intros data' c ->. rewrite hex_DecodeString_Sprintf.
    cbn [hex_DecodeString]. destruct (fromHexChar c); cbn [fst snd]; rewrite app_nil_r; by eexists.
Qed.

Lemma toyJSON_inverse : json_inverse toyJSON.
Proof.
  intros x data [= <-]. cbn [json_Unmarshal toyJSON]. f_equal.
  rewrite length_app. cbn [length]. rewrite Nat.add_sub. by rewrite take_app_length.
Qed.

(** [ByteString_roundtrip] on the two bytes 2B 7E. *)
Lemma ByteString_roundtrip_witness :
  ByteString_UnmarshalJSON toyJSON [] (byte_of_Z 34 :: str "2b7e" ++ [byte_of_Z 34])
  = ([byte_of_Z 0x2B; byte_of_Z 0x7E], None)
  ∧ ∀ data' c,
      json_Unmarshal toyJSON data'
      = Ok (fmt_Sprintf_x [byte_of_Z 0x2B; byte_of_Z 0x7E] ++ [c]) →
      ∃ err, ByteString_UnmarshalJSON toyJSON [] data'
             = ([byte_of_Z 0x2B; byte_of_Z 0x7E], Some err).
Proof.
  apply (ByteString_roundtrip toyJSON [byte_of_Z 0x2B; byte_of_Z 0x7E] []).
  - exact toyJSON_inverse.
  - reflexivity.
Defined.

End Serialization.

(** ** The list of cards on the command line *)

Module CardList.
Import Go GoLib tkengine main Notions FurtherNotions GoFacts.

Lemma strings_Split_nonempty (s : list ascii) (sep : ascii) : ∀ cur,
  strings_Split s sep cur ≠ [].
Proof.
  induction s as [|c s IH]; intros cur; cbn [strings_Split]; [done|].
  destruct (bool_decide (c = sep)); [done|apply IH].
Qed.

Lemma join_cons (sep : ascii) (x : list ascii) (l : list (list ascii)) :
  l ≠ [] → join sep (x :: l) = x ++ sep :: join sep l.
Proof. destruct l; done. Qed.

Lemma strings_Split_join (s : list ascii) (sep : ascii) : ∀ cur,
  join sep (strings_Split s sep cur) = cur ++ s.
Proof.
  induction s as [|c s IH]; intros cur; cbn [strings_Split].
  - by rewrite app_nil_r.
  - destruct (bool_decide_reflect (c = sep)) as [->|Hne].
    + rewrite join_cons by apply strings_Split_nonempty. by rewrite IH.
    + rewrite IH, <- app_assoc. done.
Qed.

Lemma strings_Split_length (s : list ascii) (sep : ascii) : ∀ cur,
  length (strings_Split s sep cur) = S (length (filter (λ c, c = sep) s)).
Proof.
  induction s as [|c s IH]; intros cur; cbn [strings_Split]; [done|].
  destruct (bool_decide_reflect (c = sep)) as [->|Hne].
  - rewrite filter_cons_True by done. cbn [length]. by rewrite IH.
  - rewrite filter_cons_False by done. apply IH.
Qed.

Lemma strings_Split_pieces (P : ascii → Prop) (s : list ascii) (sep : ascii) : ∀ cur,
  Forall P s → Forall (λ c, P c ∧ c ≠ sep) cur →
  Forall (Forall (λ c, P c ∧ c ≠ sep)) (strings_Split s sep cur).
Proof.
  induction s as [|c s IH]; intros cur Hs Hcur; cbn [strings_Split].
  - by apply List.Forall_cons.
  - apply List.Forall_cons_iff in Hs as [Hc Hs].
    destruct (bool_decide_reflect (c = sep)) as [->|Hne].
    + apply List.Forall_cons; [done|]. by apply IH.
    + apply IH; [done|]. apply Forall_app. split; [done|]. by apply List.Forall_cons.
Qed.

Lemma TrimSpace_scan_ascii (s : list ascii) :
  Forall is_ascii s →
  ∃ pre r, s = pre ++ r ∧ TrimSpace_scan s = inl r
           ∧ Forall (λ c, asciiSpace c = true) pre ∧ no_space_in_front r.
Proof.
  induction 1 as [|c s Hc Hs IH]; cbn [TrimSpace_scan].
  - by exists [], [].
  - unfold is_ascii in Hc. unfold runeSelf.
    destruct (Z.leb_spec 128 (byte_to_Z c)); [lia|].
    destruct (asciiSpace c) eqn:Hsp.
    + destruct IH as (pre & r & -> & -> & Hpre & Hr).
      exists (c :: pre), r. split; [done|]. split; [done|]. split; [|done].
      by apply List.Forall_cons.
    + exists [], (c :: s). done.
Qed.

Lemma strings_TrimSpace_ascii (T : list ascii → list ascii) (s : list ascii) :
  Forall is_ascii s →
  ∃ pre post, s = pre ++ strings_TrimSpace T s ++ post
    ∧ Forall (λ c, asciiSpace c = true) pre
    ∧ Forall (λ c, asciiSpace c = true) post
    ∧ no_space_in_front (strings_TrimSpace T s)
    ∧ no_space_in_front (reverse (strings_TrimSpace T s)).
Proof.
  intros Hs. unfold strings_TrimSpace.
  destruct (TrimSpace_scan_ascii s Hs) as (pre & r & -> & -> & Hpre & Hr).
  apply Forall_app in Hs as [_ Hs].
  destruct (TrimSpace_scan_ascii (reverse r)) as (erp & q & Hq & -> & Hpost & Hlast);
    [by apply Forall_reverse|].
  assert (Hrq : r = reverse q ++ reverse erp).
  { rewrite <- reverse_app, <- Hq. by rewrite reverse_involutive. }
  exists pre, (reverse erp). split; [by rewrite Hrq|]. split; [done|].
  split; [by apply Forall_reverse|]. split; [|by rewrite reverse_involutive].
  destruct (reverse q) as [|c q'] eqn:Hq'; [done|].
  rewrite Hrq in Hr. done.
Qed.

Lemma strings_TrimSpace_id (T : list ascii → list ascii) (s : list ascii) :
  Forall (λ c, is_ascii c ∧ asciiSpace c = false) s → strings_TrimSpace T s = s.
Proof.
  intros Hs.
  assert (Hscan : ∀ t, Forall (λ c, is_ascii c ∧ asciiSpace c = false) t →
                       TrimSpace_scan t = inl t).
  { intros [|c t] Ht; [done|]. apply List.Forall_cons_iff in Ht as [[Hc Hsp] _].
    cbn [TrimSpace_scan]. unfold is_ascii in Hc. unfold runeSelf.
    destruct (Z.leb_spec 128 (byte_to_Z c)); [lia|]. by rewrite Hsp. }
  unfold strings_TrimSpace. rewrite (Hscan s Hs).
  rewrite (Hscan (reverse s)) by (by apply Forall_reverse).
  by rewrite reverse_involutive.
Qed.

(** X23.  [CCList.Set] refuses a list that is already set and leaves it as
    it is.  On an empty list it succeeds and stores one entry more than
    the value has commas, so never none.  For an ASCII value no entry
    holds a comma or starts or ends with an ASCII space; and when the
    value holds no space at all, the entries joined by commas are the
    value. *)
Theorem CCList_Set_fields (T : list ascii → list ascii) (l : list (list ascii))
    (value : list ascii) :
  (l ≠ [] → CCList_Set T l value = (l, Some (External "CCList flag already set")))
  ∧ (∃ fs, CCList_Set T [] value = (fs, None)
           ∧ length fs = S (length (filter (λ c, c = ","%char) value))
           ∧ (Forall is_ascii value →
              Forall (λ f, (","%char ∉ f) ∧ no_space_in_front f
                           ∧ no_space_in_front (reverse f)) fs)
           ∧ (Forall (λ c, is_ascii c ∧ asciiSpace c = false) value →
              join ","%char fs = value)).
Proof.
  unfold CCList_Set. split.
  - intros Hl. destruct l as [|x l]; [done|].
    replace (len (x :: l) >? 0) with true; [done|].
    symmetry. unfold len. cbn [length]. apply Z.gtb_lt. lia.
  - change (len [] >? 0) with false. cbn [app]. eexists. split; [reflexivity|].
    split; [by rewrite length_fmap, strings_Split_length|]. split.
    + intros Hv. apply Forall_fmap.
      eapply Forall_impl; [|apply (strings_Split_pieces is_ascii value ","%char []); done].
      intros f Hf. cbn.
      destruct (strings_TrimSpace_ascii T f) as (pre & post & Heq & _ & _ & H1 & H2).
      { eapply Forall_impl; [|exact Hf]. by intros c [? _]. }
      split; [|done]. intros Hin.
      rewrite Heq in Hf. apply Forall_app in Hf as [_ Hf]. apply Forall_app in Hf as [Hf _].
      rewrite list.Forall_forall in Hf. by destruct (Hf _ Hin).
    + intros Hv.
      assert (Hid : strings_TrimSpace T <$> strings_Split value ","%char []
                    = strings_Split value ","%char []).
      { rewrite <- (list_fmap_id (strings_Split value ","%char [])) at 2.
        apply Forall_fmap_ext.
        eapply Forall_impl;
          [|apply (strings_Split_pieces (λ c, is_ascii c ∧ asciiSpace c = false)
                     value ","%char []); done].
        intros f Hf. apply strings_TrimSpace_id.
        eapply Forall_impl; [|exact Hf]. by intros c [? _]. }
      rewrite Hid. by rewrite strings_Split_join.
Qed.

End CardList.
